(** * msaada: chat synchronisation client and profile form

    A shallow embedding of the view components [ChatSupport] and
    [ProfileForm] together with the part of the database schema
    (the chat migrations) their calls run against.

    - [Js]          : the JavaScript values the handlers compute with
                      (UTF-16 strings, numbers, calendar dates).
    - [Schema]      : rows of the tables declared by the migrations.
    - [Db]          : the statements the client sends, executed on tables.
    - [ChatSupport] : the chat component: its React state, its handlers
                      and its render gate, written in a small
                      state-and-log monad.
    - [ProfileForm] : [validateProfile] and [handleSubmit] of the form.
    - [AuthForm]    : the CAPTCHA and [handleSubmit] of the sign-in form.

    The properties follow the definitions. *)

From Stdlib Require Import NArith ZArith QArith Qround String Ascii Lia Bool.
From Stdlib Require Import Sorted Lqa.
From stdpp Require Import base list numbers strings pretty.

Local Open Scope nat_scope.

(** ** JavaScript values *)

Module Js.

(** A JavaScript string is a sequence of UTF-16 code units; [length]
    of the list is the [.length] of the string. *)
Definition code_unit := N.
Definition jsstring := list code_unit.

(** String literals of the source, which are all ASCII. *)
Definition lit (s : string) : jsstring :=
  map N_of_ascii (list_ascii_of_string s).

(** The code units [String.prototype.trim] strips: WhiteSpace and
    LineTerminator of ECMAScript. *)
Definition isWhiteSpace (c : code_unit) : bool :=
  ((9 <=? c) && (c <=? 13) || (c =? 32) || (c =? 160) || (c =? 5760)
   || (8192 <=? c) && (c <=? 8202) || (c =? 8232) || (c =? 8233)
   || (c =? 8239) || (c =? 8287) || (c =? 12288) || (c =? 65279))%N.

Fixpoint trimStart (s : jsstring) : jsstring :=
  match s with
  | [] => []
  | c :: r => if isWhiteSpace c then trimStart r else s
  end.

Definition trimEnd (s : jsstring) : jsstring := rev (trimStart (rev s)).

Definition trim (s : jsstring) : jsstring := trimEnd (trimStart s).

(** Truthiness of a string: only the empty string is falsy. *)
Definition truthy (s : jsstring) : bool :=
  match s with [] => false | _ => true end.

(** Truthiness of [x?.f] style values: [undefined]/[null] is falsy. *)
Definition truthy_opt (o : option jsstring) : bool :=
  match o with None => false | Some s => truthy s end.

(** [s.split('.').pop()]: the part after the last dot, the whole string
    when it has none. *)
Fixpoint lastSegment (sep : code_unit) (acc s : jsstring) : jsstring :=
  match s with
  | [] => rev acc
  | c :: r => if (c =? sep)%N then lastSegment sep [] r
              else lastSegment sep (c :: acc) r
  end.

(** A number: a NaN, an infinity or a finite value.  Finite doubles are
    rationals, so comparisons on them are those of [Q]. *)
Inductive number :=
| NaN
| NegInfinity
| PosInfinity
| Finite (q : Q).

(** [!x] for a number: [0] and [NaN] are falsy. *)
Definition falsy_number (x : number) : bool :=
  match x with
  | NaN => true
  | Finite q => Qeq_bool q 0
  | _ => false
  end.

(** [x <= 0]. *)
Definition le_zero (x : number) : bool :=
  match x with
  | NaN => false
  | NegInfinity => true
  | PosInfinity => false
  | Finite q => Qle_bool q 0
  end.

(** [x > 0]. *)
Definition gt_zero (x : number) : bool :=
  match x with
  | NaN => false
  | NegInfinity => false
  | PosInfinity => true
  | Finite q => negb (Qle_bool q 0)
  end.

(** The calendar fields of a [Date] in local time: [year] is what
    [getFullYear()] returns, [month] is 1..12, [day] is 1..31. *)
Record Date := mkDate { year : Z; month : Z; day : Z }.

Definition getFullYear (d : Date) : Z := year d.

Definition is_leap_year (y : Z) : bool :=
  ((y mod 4 =? 0) && (negb (y mod 100 =? 0) || (y mod 400 =? 0)))%Z.

Definition days_in_month (y m : Z) : Z :=
  (if m =? 2 then (if is_leap_year y then 29 else 28)
   else if (m =? 4) || (m =? 6) || (m =? 9) || (m =? 11) then 30
   else 31)%Z.

Definition previous_day (d : Date) : Date :=
  (if negb (day d =? 1) then mkDate (year d) (month d) (day d - 1)
   else if negb (month d =? 1)
        then mkDate (year d) (month d - 1)
                    (days_in_month (year d) (month d - 1))
        else mkDate (year d - 1) 12 31)%Z.

(** [new Date('YYYY-MM-DD')]: a date-only string is midnight of that
    day in UTC, and the fields of the resulting [Date] are read in local
    time.  [timezoneOffset] is what [getTimezoneOffset()] returns for
    that instant: minutes, positive when local time is behind UTC (west
    of Greenwich), less than a day either way.  Behind UTC the local
    date is the day before the one written. *)
Definition new_Date (timezoneOffset : Z) (written : Date) : Date :=
  if (0 <? timezoneOffset)%Z then previous_day written else written.

(** *** Doubles

    A finite double is a rational [m * 2^e] with [|m| < 2^53] and
    [-1074 <= e <= 971].  An arithmetic operation returns the exact
    result rounded to the nearest double, ties going to the even
    significand.  Overflow is not represented. *)
Definition pow2 (k : Z) : Q :=
  if (0 <=? k)%Z then inject_Z (2 ^ k) else / inject_Z (2 ^ (- k)).

Definition is_double (q : Q) : Prop :=
  ∃ m e : Z, (Z.abs m < 2 ^ 53)%Z ∧ (-1074 ≤ e ≤ 971)%Z ∧
             (q == inject_Z m * pow2 e)%Q.

(** The exponent of the leading bit of [q > 0]:
    [2^k <= q < 2^(k+1)]. *)
Definition floor_log2 (q : Q) : Z :=
  let k := (Z.log2 (Qnum q) - Z.log2 (Zpos (Qden q)))%Z in
  if Qle_bool (pow2 k) q then k else (k - 1)%Z.

Definition round_half_even (q : Q) : Z :=
  let f := Qfloor q in
  match (q - inject_Z f ?= 1 # 2)%Q with
  | Lt => f
  | Gt => (f + 1)%Z
  | Eq => if Z.even f then f else (f + 1)%Z
  end.

(** Rounding to 53 significant bits, gradual underflow included. *)
Definition binary64_pos (q : Q) : Q :=
  let e := Z.max (floor_log2 q - 52) (-1074) in
  (inject_Z (round_half_even (q / pow2 e)) * pow2 e)%Q.

Definition binary64 (q : Q) : Q :=
  match (q ?= 0)%Q with
  | Eq => 0%Q
  | Gt => binary64_pos q
  | Lt => (- binary64_pos (- q))%Q
  end.

(** [x * y] on doubles. *)
Definition fmul (x y : Q) : Q := binary64 (x * y).

End Js.

Import Js.

(** ** Rows of the tables (migrations [stark_sun], [super_swamp],
       [divine_fog] and the chat migrations) *)

Definition Id := nat.

(** Timestamps, in milliseconds. *)
Definition Time := nat.

Module Schema.

(** What a date column or a date input holds: nothing, a string that
    [new Date] cannot parse, or a date. *)
Inductive DateField :=
| NoDate
| InvalidDate
| ValidDate (d : Date).

(** [profiles]; the form keeps a [Partial<UserProfile>], so the text
    fields may be absent. *)
Record UserProfile := mkProfile {
  p_user_id : Id;
  full_name : option jsstring;
  address : option jsstring;
  phone : option jsstring;
  date_of_birth : DateField;
  employment_status : jsstring;
  monthly_income : number;
  is_admin : bool
}.

(** [chat_conversations]; [status] defaults to ['active']. *)
Record Conversation := mkConversation {
  c_id : Id;
  c_user_id : Id;
  c_status : string;
  c_created_at : Time;
  c_updated_at : Time
}.

(** [chat_messages], with the columns added by the enhancement
    migration ([attachment_url], [attachment_type], [read_at],
    [is_typing]). *)
Record Message := mkMessage {
  m_id : Id;
  m_conversation_id : Id;
  m_user_id : Id;
  m_message : jsstring;
  m_is_support : bool;
  m_created_at : Time;
  m_attachment_url : option jsstring;
  m_attachment_type : option jsstring;
  m_read_at : option Time;
  m_is_typing : bool
}.

(** [chat_typing_status]: primary key [id],
    [UNIQUE(conversation_id, user_id)]. *)
Record TypingStatus := mkTypingStatus {
  t_id : Id;
  t_conversation_id : Id;
  t_user_id : Id;
  t_is_typing : bool;
  t_last_updated : Time
}.

(** A browser [File] and a stored object. *)
Record File := mkFile {
  f_name : jsstring;
  f_size : N;
  f_type : jsstring
}.

Record Tables := mkTables {
  session : option Id;                      (* auth.getUser() *)
  profiles : list UserProfile;
  chat_conversations : list Conversation;
  chat_messages : list Message;
  chat_typing_status : list TypingStatus;
  objects : list (jsstring * File)          (* bucket profile-documents *)
}.

Definition empty_tables (who : option Id) : Tables :=
  mkTables who [] [] [] [] [].

(** Row-level security.  It is enabled on the three chat tables, and
    the migrations create these policies, all [TO authenticated]:
    [FOR SELECT] and [FOR INSERT] on [chat_conversations] and on
    [chat_messages], [FOR ALL] on [chat_typing_status]. *)
Inductive Table :=
| Chat_conversations
| Chat_messages
| Chat_typing_status.

Inductive Command := SELECT | INSERT | UPDATE | DELETE | ALL.

Definition policies (table : Table) : list Command :=
  match table with
  | Chat_conversations => [SELECT; INSERT]
  | Chat_messages => [SELECT; INSERT]
  | Chat_typing_status => [ALL]
  end.

Definition same_command (a b : Command) : bool :=
  match a, b with
  | SELECT, SELECT | INSERT, INSERT | UPDATE, UPDATE
  | DELETE, DELETE | ALL, ALL => true
  | _, _ => false
  end.

(** Whether some policy of [table] applies to [command].  Without one,
    a statement of the client's role sees no row of the table; so does
    a trigger function that runs for it, none of them being
    [SECURITY DEFINER]. *)
Definition has_policy (table : Table) (command : Command) : bool :=
  existsb (λ p, same_command p command || same_command p ALL)
          (policies table).

End Schema.

Import Schema.

(** ** The statements the client and the triggers run *)

Module Db.

(** [DEFAULT gen_random_uuid()]: an identifier not used in the table. *)
Definition gen_random_uuid (used : list Id) : Id := S (max_list used).

(** [.single()]: the row when the result has exactly one, no data
    (and an error the callers here ignore) otherwise. *)
Definition single {A} (rows : list A) : option A :=
  match rows with
  | [r] => Some r
  | _ => None
  end.

(** *** profiles *)

Definition profiles_select (uid : Id) (db : Tables) : option UserProfile :=
  single (filter (λ p, p_user_id p = uid) (profiles db)).

(** *** chat_conversations *)

Definition is_active_of (uid : Id) (c : Conversation) : Prop :=
  c_user_id c = uid ∧ c_status c = "active"%string.

#[global] Instance is_active_of_dec uid c : Decision (is_active_of uid c).
Proof. unfold is_active_of. apply _. Defined.

(** [.select('id').eq('user_id', uid).eq('status', 'active').single()] *)
Definition conversations_select_active (uid : Id) (db : Tables)
  : option Conversation :=
  single (filter (is_active_of uid) (chat_conversations db)).

Definition with_conversations (cs : list Conversation) (db : Tables) :=
  mkTables (session db) (profiles db) cs (chat_messages db)
           (chat_typing_status db) (objects db).

(** [.insert({ user_id: uid }).select().single()]: the other columns
    take their defaults; the INSERT policy "Users can create
    conversations" requires [user_id = auth.uid()]. *)
Definition conversations_insert (uid : Id) (now : Time) (db : Tables)
  : option Conversation * Tables :=
  if decide (session db = Some uid)
  then
    let row := mkConversation
                 (gen_random_uuid (fmap c_id (chat_conversations db)))
                 uid "active" now now in
    (Some row, with_conversations (chat_conversations db ++ [row]) db)
  else (None, db).

(** *** chat_typing_status *)

(** The two constraints of the table. *)
Definition typing_key (r : TypingStatus) : Id * Id :=
  (t_conversation_id r, t_user_id r).

Definition typing_constraints (rows : list TypingStatus) : Prop :=
  NoDup (fmap t_id rows) ∧ NoDup (fmap typing_key rows).

#[global] Instance typing_constraints_dec rows :
  Decision (typing_constraints rows).
Proof. unfold typing_constraints. apply _. Defined.

(** The arbiter of [INSERT ... ON CONFLICT (target) DO UPDATE]. *)
Inductive ConflictTarget :=
| OnPrimaryKey             (* ON CONFLICT (id) *)
| OnConversationUser.      (* ON CONFLICT (conversation_id, user_id) *)

Definition conflicts (target : ConflictTarget) (new old : TypingStatus)
  : Prop :=
  match target with
  | OnPrimaryKey => t_id old = t_id new
  | OnConversationUser => typing_key old = typing_key new
  end.

#[global] Instance conflicts_dec target new old :
  Decision (conflicts target new old).
Proof. destruct target; simpl; apply _. Defined.

(** [DO UPDATE SET] of the proposed columns; [id] is kept. *)
Definition merge (new old : TypingStatus) : TypingStatus :=
  mkTypingStatus (t_id old) (t_conversation_id new) (t_user_id new)
                 (t_is_typing new) (t_last_updated new).

(** The statement: the proposed row takes a fresh [id]; it updates the
    rows it conflicts with on [target] and is appended when there is
    none; the statement is rolled back with error 23505 when the
    result breaks a constraint of the table. *)
Definition typing_insert_on_conflict (target : ConflictTarget)
    (cid uid : Id) (flag : bool) (now : Time) (rows : list TypingStatus)
  : list TypingStatus * option string :=
  let new := mkTypingStatus (gen_random_uuid (fmap t_id rows))
                            cid uid flag now in
  let proposed :=
    if decide (Exists (conflicts target new) rows)
    then fmap (λ old, if decide (conflicts target new old)
                     then merge new old else old) rows
    else rows ++ [new] in
  if decide (typing_constraints proposed)
  then (proposed, None)
  else (rows, Some "23505"%string).

Definition with_typing (ts : list TypingStatus) (db : Tables) :=
  mkTables (session db) (profiles db) (chat_conversations db)
           (chat_messages db) ts (objects db).

(** [supabase.from('chat_typing_status').upsert(row)] with no
    [onConflict] option: the request carries no [on_conflict]
    parameter and the arbiter is the primary key. *)
Definition typing_upsert (cid uid : Id) (flag : bool) (now : Time)
    (db : Tables) : Tables :=
  with_typing
    (fst (typing_insert_on_conflict OnPrimaryKey cid uid flag now
            (chat_typing_status db))) db.

(** The trigger function [update_typing_status()], which names its
    arbiter: [ON CONFLICT (conversation_id, user_id) DO UPDATE]. *)
Definition update_typing_status (new : Message) (now : Time)
    (db : Tables) : Tables :=
  with_typing
    (fst (typing_insert_on_conflict OnConversationUser
            (m_conversation_id new) (m_user_id new) (m_is_typing new) now
            (chat_typing_status db))) db.

(** *** chat_messages *)

Definition with_messages (ms : list Message) (db : Tables) :=
  mkTables (session db) (profiles db) (chat_conversations db) ms
           (chat_typing_status db) (objects db).

(** [ORDER BY created_at ASC], stable for equal timestamps. *)
Fixpoint insert_by_created_at (m : Message) (l : list Message)
  : list Message :=
  match l with
  | [] => [m]
  | x :: r => if decide (m_created_at m < m_created_at x)
              then m :: l else x :: insert_by_created_at m r
  end.

Definition order_by_created_at (l : list Message) : list Message :=
  foldl (λ acc m, insert_by_created_at m acc) [] l.

(** [.select('*').eq('conversation_id', cid)
     .order('created_at', { ascending: true })] *)
Definition messages_select (cid : Id) (db : Tables) : list Message :=
  order_by_created_at
    (filter (λ m, m_conversation_id m = cid) (chat_messages db)).

(** The rows [.eq('id', mid).is('read_at', null)] selects. *)
Definition unread_with_id (mid : Id) (m : Message) : Prop :=
  m_id m = mid ∧ m_read_at m = None.

#[global] Instance unread_with_id_dec mid m : Decision (unread_with_id mid m).
Proof. unfold unread_with_id. apply _. Defined.

Definition set_read_at (t : Time) (m : Message) : Message :=
  mkMessage (m_id m) (m_conversation_id m) (m_user_id m) (m_message m)
            (m_is_support m) (m_created_at m) (m_attachment_url m)
            (m_attachment_type m) (Some t) (m_is_typing m).

(** [UPDATE chat_messages SET read_at = now WHERE id = mid AND read_at
    IS NULL], on the rows the statement is [permitted] to see; the row
    trigger [update_typing_status_trigger] (AFTER INSERT OR UPDATE) runs
    for each row the statement changed. *)
Definition update_read_at (permitted : bool) (mid : Id) (now : Time)
    (db : Tables) : Tables :=
  let target m := unread_with_id mid m ∧ permitted = true in
  let hit := filter target (chat_messages db) in
  let updated := fmap (λ m, if decide (target m)
                           then set_read_at now m else m)
                     (chat_messages db) in
  foldl (λ d m, update_typing_status (set_read_at now m) now d)
        (with_messages updated db) hit.

(** [.update({ read_at: now }).eq('id', mid).is('read_at', null)], sent
    by the client: the statement is subject to the policies of
    [chat_messages]. *)
Definition messages_mark_read (mid : Id) (now : Time) (db : Tables)
  : Tables :=
  update_read_at (has_policy Chat_messages UPDATE) mid now db.

(** The trigger function [update_conversation_updated_at()].  It is not
    [SECURITY DEFINER]: its UPDATE runs for the role that inserted the
    message and is subject to the policies of [chat_conversations]. *)
Definition update_conversation_updated_at (new : Message) (now : Time)
    (db : Tables) : Tables :=
  with_conversations
    (fmap (λ c, if decide (c_id c = m_conversation_id new
                           ∧ has_policy Chat_conversations UPDATE = true)
               then mkConversation (c_id c) (c_user_id c) (c_status c)
                                   (c_created_at c) now
               else c)
         (chat_conversations db)) db.

(** [.insert({ conversation_id, user_id, message, is_support,
    attachment_url, attachment_type })]: [conversation_id] is NOT NULL
    (23502) and references [chat_conversations] (23503); both AFTER
    INSERT triggers run on the new row. *)
Definition messages_insert (cid : option Id) (uid : Id) (body : jsstring)
    (is_support : bool) (url ty : option jsstring) (now : Time)
    (db : Tables) : Tables * option string :=
  match cid with
  | None => (db, Some "23502"%string)
  | Some c =>
      if decide (c ∈ fmap c_id (chat_conversations db))
      then
        let row := mkMessage (gen_random_uuid (fmap m_id (chat_messages db)))
                             c uid body is_support now url ty None false in
        let db1 := with_messages (chat_messages db ++ [row]) db in
        let db2 := update_conversation_updated_at row now db1 in
        (update_typing_status row now db2, None)
      else (db, Some "23503"%string)
  end.

(** *** storage bucket [profile-documents] *)

Definition with_objects (os : list (jsstring * File)) (db : Tables) :=
  mkTables (session db) (profiles db) (chat_conversations db)
           (chat_messages db) (chat_typing_status db) os.

(** [.upload(path, file)], without [upsert]: refused when the path is
    taken. *)
Definition storage_upload (path : jsstring) (file : File) (db : Tables)
  : Tables * option string :=
  if decide (path ∈ fmap fst (objects db))
  then (db, Some "Duplicate"%string)
  else (with_objects (objects db ++ [(path, file)]) db, None).

(** *** Invariants of the tables *)

(** At most one active conversation per end user. *)
Definition one_active_per_user (db : Tables) : Prop :=
  ∀ uid, length (filter (is_active_of uid) (chat_conversations db)) ≤ 1.

(** The rows a typing table holds for a (conversation, participant)
    pair. *)
Definition typing_rows_of (cid uid : Id) (rows : list TypingStatus)
  : list TypingStatus :=
  filter (λ r, typing_key r = (cid, uid)) rows.

(** A run of statements for one pair (flag and time of each), oldest
    first. *)
Definition upserts (target : ConflictTarget) (cid uid : Id)
    (writes : list (bool * Time)) (rows : list TypingStatus)
  : list TypingStatus :=
  foldl (λ r w, fst (typing_insert_on_conflict target cid uid w.1 w.2 r))
        rows writes.

End Db.

(** ** The chat component (ChatSupport.tsx) *)

Module ChatSupport.

(** What a handler does to the outside: requests to the platform, and
    the notifications it raises. *)
Inductive Effect :=
| auth_getUser
| profiles_select (user_id : Id)
| chat_conversations_select (user_id : Id)
| chat_conversations_insert (user_id : Id)
| chat_messages_select (conversation_id : option Id)
| chat_messages_update (id : Id) (read_at : Time)
| chat_messages_insert (conversation_id : option Id) (user_id : Id)
    (message : jsstring) (is_support : bool)
    (attachment_url attachment_type : option jsstring)
| chat_typing_status_upsert (conversation_id user_id : Id)
    (is_typing : bool) (last_updated : Time)
| storage_upload (path : jsstring) (file : File)
| channel_subscribe (channel : string) (conversation_id : Id)
| toast_error (msg : string)
| console_error (msg : string).

(** The requests among them: everything but the two notifications. *)
Definition is_request (e : Effect) : bool :=
  match e with
  | toast_error _ | console_error _ => false
  | _ => true
  end.

(** The hooks of the component: the [isAdmin] prop, the [useState]
    cells and [typingTimeoutRef], which holds the identifier of the
    timeout set last (whether it is still pending or not), if any was
    set. *)
Record State := mkState {
  isAdmin : bool;
  messages : list Message;
  newMessage : jsstring;
  loading : bool;
  conversationId : option Id;
  userId : option Id;
  profile : option UserProfile;
  typingStatus : list TypingStatus;
  selectedFile : option File;
  uploadProgress : nat;
  typingTimeoutRef : option nat
}.

Definition initial (admin : bool) : State :=
  mkState admin [] [] true None None None [] None 0 None.

(** A pending timeout: its identifier, the time at which it is due,
    and the identities its callback, [() => updateTypingStatus(false)],
    closes over. *)
Record Timeout := mkTimeout {
  timeoutID : nat;
  due : Time;
  to_conversation_id : Id;
  to_user_id : Id
}.

(** A call of [updateTypingStatus] suspended at its [await], until the
    answer to its upsert arrives: its argument and the identities it
    runs with. *)
Record Suspended := mkSuspended {
  su_isTyping : bool;
  su_conversation_id : Id;
  su_user_id : Id
}.

(** What the page has going on besides its handlers: the pending
    timeouts (oldest first), the number of timeouts set so far, and the
    suspended calls (oldest first). *)
Record Loop := mkLoop {
  timers : list Timeout;
  issued : nat;
  awaiting : list Suspended
}.

Definition idle : Loop := mkLoop [] 0 [].

(** The session, the platform behind it, the clock, the effects so far
    (oldest first), and what is pending. *)
Record Sys := mkSys {
  ui : State;
  db : Tables;
  clock : Time;
  trace : list Effect;
  loop : Loop
}.

Definition M (A : Type) : Type := Sys → A * Sys.

#[global] Instance M_ret : MRet M := λ A a w, (a, w).
#[global] Instance M_bind : MBind M :=
  λ A B f m w, let r := m w in f (fst r) (snd r).

Definition get : M State := λ w, (ui w, w).
Definition now : M Time := λ w, (clock w, w).
Definition pending : M Loop := λ w, (loop w, w).
Definition emit (e : Effect) : M unit :=
  λ w, (tt, mkSys (ui w) (db w) (clock w) (trace w ++ [e]) (loop w)).
Definition set_ui (f : State → State) : M unit :=
  λ w, (tt, mkSys (f (ui w)) (db w) (clock w) (trace w) (loop w)).
Definition set_loop (f : Loop → Loop) : M unit :=
  λ w, (tt, mkSys (ui w) (db w) (clock w) (trace w) (f (loop w))).
Definition query {A} (q : Tables → A) : M A := λ w, (q (db w), w).
Definition exec {A} (stmt : Tables → A * Tables) : M A :=
  λ w, let r := stmt (db w) in
       (fst r, mkSys (ui w) (snd r) (clock w) (trace w) (loop w)).

(** The state setters. *)
Definition setMessages (f : list Message → list Message) : M unit :=
  set_ui (λ s, mkState (isAdmin s) (f (messages s)) (newMessage s)
    (loading s) (conversationId s) (userId s) (profile s)
    (typingStatus s) (selectedFile s) (uploadProgress s)
    (typingTimeoutRef s)).
Definition setNewMessage (v : jsstring) : M unit :=
  set_ui (λ s, mkState (isAdmin s) (messages s) v
    (loading s) (conversationId s) (userId s) (profile s)
    (typingStatus s) (selectedFile s) (uploadProgress s)
    (typingTimeoutRef s)).
Definition setLoading (v : bool) : M unit :=
  set_ui (λ s, mkState (isAdmin s) (messages s) (newMessage s)
    v (conversationId s) (userId s) (profile s)
    (typingStatus s) (selectedFile s) (uploadProgress s)
    (typingTimeoutRef s)).
Definition setConversationId (v : option Id) : M unit :=
  set_ui (λ s, mkState (isAdmin s) (messages s) (newMessage s)
    (loading s) v (userId s) (profile s)
    (typingStatus s) (selectedFile s) (uploadProgress s)
    (typingTimeoutRef s)).
Definition setUserId (v : option Id) : M unit :=
  set_ui (λ s, mkState (isAdmin s) (messages s) (newMessage s)
    (loading s) (conversationId s) v (profile s)
    (typingStatus s) (selectedFile s) (uploadProgress s)
    (typingTimeoutRef s)).
Definition setProfile (v : option UserProfile) : M unit :=
  set_ui (λ s, mkState (isAdmin s) (messages s) (newMessage s)
    (loading s) (conversationId s) (userId s) v
    (typingStatus s) (selectedFile s) (uploadProgress s)
    (typingTimeoutRef s)).
Definition setTypingStatus (f : list TypingStatus → list TypingStatus)
  : M unit :=
  set_ui (λ s, mkState (isAdmin s) (messages s) (newMessage s)
    (loading s) (conversationId s) (userId s) (profile s)
    (f (typingStatus s)) (selectedFile s) (uploadProgress s)
    (typingTimeoutRef s)).
Definition setSelectedFile (v : option File) : M unit :=
  set_ui (λ s, mkState (isAdmin s) (messages s) (newMessage s)
    (loading s) (conversationId s) (userId s) (profile s)
    (typingStatus s) v (uploadProgress s)
    (typingTimeoutRef s)).
Definition setUploadProgress (v : nat) : M unit :=
  set_ui (λ s, mkState (isAdmin s) (messages s) (newMessage s)
    (loading s) (conversationId s) (userId s) (profile s)
    (typingStatus s) (selectedFile s) v
    (typingTimeoutRef s)).

(** [typingTimeoutRef.current = id] *)
Definition with_timer (id : option nat) (s : State) : State :=
  mkState (isAdmin s) (messages s) (newMessage s)
    (loading s) (conversationId s) (userId s) (profile s)
    (typingStatus s) (selectedFile s) (uploadProgress s) id.

(** [clearTimeout(id)]: the timeout with that identifier, if it is
    still pending, is dropped. *)
Definition without (id : nat) (l : Loop) : Loop :=
  mkLoop (filter (λ timeout, timeoutID timeout ≠ id) (timers l))
         (issued l) (awaiting l).

Definition clearTimeout (id : nat) : M unit := set_loop (without id).

(** [setTimeout(() => updateTypingStatus(false), delay)], called where
    the identities are [cid] and [uid]; identifiers are handed out in
    increasing order, from 1. *)
Definition setTimeout (cid uid : Id) (delay : nat) : M nat :=
  t ← now;
  l ← pending;
  let id := S (issued l) in
  set_loop (λ l, mkLoop (timers l ++ [mkTimeout id (t + delay) cid uid])
                        id (awaiting l));;
  mret id.

(** A call reaches its [await]. *)
Definition suspend (call : Suspended) : M unit :=
  set_loop (λ l, mkLoop (timers l) (issued l) (awaiting l ++ [call])).

(** *** Session setup: the first [useEffect] *)

Definition setupChat : M unit :=
  emit auth_getUser;;
  user ← query session;
  match user with
  | None => mret tt
  | Some uid =>
      setUserId (Some uid);;
      (* Fetch user profile *)
      emit (profiles_select uid);;
      profileData ← query (Db.profiles_select uid);
      setProfile profileData;;
      s ← get;
      (if negb (isAdmin s) then
         emit (chat_conversations_select uid);;
         existingConv ← query (Db.conversations_select_active uid);
         match existingConv with
         | Some conv => setConversationId (Some (c_id conv))
         | None =>
             emit (chat_conversations_insert uid);;
             t ← now;
             newConv ← exec (Db.conversations_insert uid t);
             match newConv with
             | Some conv => setConversationId (Some (c_id conv))
             | None => mret tt
             end
         end
       else mret tt);;
      setLoading false
  end.

(** *** Read receipts *)

Definition markMessageAsRead (messageId : Id) : M unit :=
  t ← now;
  emit (chat_messages_update messageId t);;
  exec (λ d, (tt, Db.messages_mark_read messageId t d)).

(** [data?.forEach(...)]: the handlers of a list, in order. *)
Fixpoint forEach {A} (l : list A) (f : A → M unit) : M unit :=
  match l with
  | [] => mret tt
  | x :: r => f x;; forEach r f
  end.

Definition fetchMessages : M unit :=
  s ← get;
  emit (chat_messages_select (conversationId s));;
  match conversationId s with
  | None =>
      (* a filter on [null] is refused by the platform *)
      emit (console_error "Error fetching messages:");;
      emit (toast_error "Failed to load messages")
  | Some cid =>
      data ← query (Db.messages_select cid);
      setMessages (λ _, data);;
      (* Mark all messages as read *)
      forEach data (λ message,
        if bool_decide (m_read_at message = None)
           && bool_decide (Some (m_user_id message) ≠ userId s)
        then markMessageAsRead (m_id message)
        else mret tt)
  end.

(** *** The two subscription callbacks *)

(** [(payload) => { setMessages(...); markMessageAsRead(payload.new.id) }] *)
Definition onMessageInsert (payload_new : Message) : M unit :=
  setMessages (λ current, current ++ [payload_new]);;
  markMessageAsRead (m_id payload_new).

(** [(payload) => setTypingStatus(current => ...)] *)
Definition onTypingStatusChange (payload_new : TypingStatus) : M unit :=
  setTypingStatus (λ current,
    let filtered :=
      filter (λ status, t_user_id status ≠ t_user_id payload_new) current in
    filtered ++ [payload_new]).

(** The second [useEffect], run when [conversationId] changes.  The
    effect calls [fetchMessages()] first, but that call runs up to its
    [await] only: its select leaves once the effect has returned, after
    the two [subscribe()] calls. *)
Definition onConversationId : M unit :=
  s ← get;
  match conversationId s with
  | None => mret tt
  | Some cid =>
      emit (channel_subscribe "chat_messages" cid);;
      emit (channel_subscribe "typing_status" cid);;
      fetchMessages
  end.

(** *** Typing indicator *)

(** [updateTypingStatus] past its guard, up to the [await]: the timeout
    the ref names is cleared (the ref keeps the identifier), the upsert
    is sent, with the time of the call as [last_updated], and the call
    is suspended until the answer arrives.  The statement is taken to
    reach the store as it is sent. *)
Definition sendTypingStatus (cid uid : Id) (isTyping : bool) : M unit :=
  s ← get;
  match typingTimeoutRef s with
  | Some id => clearTimeout id
  | None => mret tt
  end;;
  t ← now;
  emit (chat_typing_status_upsert cid uid isTyping t);;
  exec (λ d, (tt, Db.typing_upsert cid uid isTyping t d));;
  suspend (mkSuspended isTyping cid uid).

Definition updateTypingStatus (isTyping : bool) : M unit :=
  s ← get;
  match conversationId s, userId s with
  | Some cid, Some uid => sendTypingStatus cid uid isTyping
  | _, _ => mret tt
  end.

(** The answer to the upsert of the [i]-th suspended call arrives
    (answers may overtake one another): the call resumes after its
    [await], and sets the timeout when its argument was [true]. *)
Definition resume (i : nat) : M unit :=
  l ← pending;
  match awaiting l !! i with
  | None => mret tt
  | Some call =>
      set_loop (λ l, mkLoop (timers l) (issued l) (delete i (awaiting l)));;
      if su_isTyping call
      then id ← setTimeout (su_conversation_id call) (su_user_id call) 3000;
           set_ui (with_timer (Some id))
      else mret tt
  end.

(** The compose input: [onChange] and [onBlur]. *)
Definition onChange (value : jsstring) : M unit :=
  setNewMessage value;;
  updateTypingStatus (bool_decide (0 < length value)).

Definition onBlur : M unit := updateTypingStatus false.

(** Time passes by [dt] milliseconds.  The timeouts that fall due in
    the meantime run their callback, at their due time (or at once when
    that is past), the earliest first and the oldest first among those
    due together.  The callback is [updateTypingStatus(false)] of the
    render that set the timeout, whose guard its identities passed. *)
Definition set_clock (t : Time) : M unit :=
  λ w, (tt, mkSys (ui w) (db w) t (trace w) (loop w)).

Fixpoint next_due (l : list Timeout) : option Timeout :=
  match l with
  | [] => None
  | timeout :: rest =>
      match next_due rest with
      | Some later =>
          if decide (due timeout ≤ due later) then Some timeout
          else Some later
      | None => Some timeout
      end
  end.

(** [fuel] bounds the number of callbacks run: a callback sets no
    timeout, so the number of pending timeouts suffices. *)
Fixpoint run_due (fuel : nat) (until : Time) : M unit :=
  match fuel with
  | 0 => mret tt
  | S fuel' =>
      l ← pending;
      match next_due (timers l) with
      | Some timeout =>
          if bool_decide (due timeout ≤ until)
          then t ← now;
               set_clock (max t (due timeout));;
               set_loop (without (timeoutID timeout));;
               sendTypingStatus (to_conversation_id timeout)
                                (to_user_id timeout) false;;
               run_due fuel' until
          else mret tt
      | None => mret tt
      end
  end.

Definition elapse (dt : nat) : M unit :=
  t ← now;
  l ← pending;
  run_due (length (timers l)) (t + dt);;
  set_clock (t + dt).

(** *** Attachments and sending *)

(** [e.target.files?.[0]] is the argument. *)
Definition handleFileSelect (file : option File) : M unit :=
  match file with
  | Some f =>
      if (5 * 1024 * 1024 <? f_size f)%N (* 5MB limit *)
      then emit (toast_error "File size must be less than 5MB")
      else setSelectedFile (Some f)
  | None => mret tt
  end.

(** The text of an identifier in a template string. *)
Definition id_text (i : Id) : jsstring := lit (pretty i).

Definition null_text : jsstring := lit "null".

(** [random] stands for [Math.random().toString(36).substring(2)],
    and [getPublicUrl] for the method of that name of the storage
    client, on the bucket [profile-documents]: it maps a path to the
    absolute URL under the project URL the client was created with.
    The result is the public URL, or nothing when the upload threw. *)
Definition uploadFile (file : File) (random : jsstring)
    (getPublicUrl : jsstring → jsstring) : M (option jsstring) :=
  s ← get;
  let fileExt := lastSegment 46%N [] (f_name file) in
  let fileName := random ++ lit "." ++ fileExt in
  let filePath :=
    from_option id_text null_text (userId s) ++ lit "/" ++ fileName in
  emit (storage_upload filePath file);;
  uploadError ← exec (λ d, let '(d', e) := Db.storage_upload filePath file d
                           in (e, d'));
  match uploadError with
  | Some _ =>
      emit (console_error "Error uploading file:");;
      mret None
  | None => mret (Some (getPublicUrl filePath))
  end.

(** [v || null] *)
Definition or_null (v : jsstring) : option jsstring :=
  if truthy v then Some v else None.

Definition failed_to_send : M unit :=
  emit (console_error "Error sending message:");;
  emit (toast_error "Failed to send message").

Definition handleSubmit (random : jsstring)
    (getPublicUrl : jsstring → jsstring) : M unit :=
  s ← get;
  if negb (truthy (trim (newMessage s)))
     && bool_decide (selectedFile s = None)
     || bool_decide (userId s = None)
  then mret tt
  else
  match userId s with
  | None => mret tt                     (* excluded by the guard *)
  | Some uid =>
        attachment ←
          match selectedFile s with
          | Some f =>
              url ← uploadFile f random getPublicUrl;
              mret ((λ u, (u, f_type f)) <$> url)
          | None => mret (Some ([], []))
          end;
        match attachment with
        | None => failed_to_send
        | Some (attachmentUrl, attachmentType) =>
            t ← now;
            let body := trim (newMessage s) in
            emit (chat_messages_insert (conversationId s) uid body
                    (isAdmin s) (or_null attachmentUrl)
                    (or_null attachmentType));;
            error ← exec (λ d,
              let '(d', e) :=
                Db.messages_insert (conversationId s) uid body (isAdmin s)
                  (or_null attachmentUrl) (or_null attachmentType) t d
              in (e, d'));
            match error with
            | Some _ => failed_to_send
            | None =>
                setNewMessage [];;
                setSelectedFile None;;
                setUploadProgress 0
            end
        end
  end.

(** *** What the component renders *)

Inductive View :=
| CompleteYourProfileFirst        (* the card with "Go to Profile" *)
| Loader
| Chat (someoneIsTyping sendDisabled : bool).

Definition render (s : State) : View :=
  if negb (truthy_opt (profile s ≫= full_name)) && negb (isAdmin s)
  then CompleteYourProfileFirst
  else if loading s then Loader
  else Chat
         (bool_decide
            (Exists (λ status, t_is_typing status = true
                               ∧ Some (t_user_id status) ≠ userId s)
                    (typingStatus s)))
         (negb (truthy (trim (newMessage s)))
          && bool_decide (selectedFile s = None)).

(** Running a handler from a given situation. *)
Definition run {A} (m : M A) (w : Sys) : Sys := snd (m w).

Definition start (admin : bool) (d : Tables) (t : Time) : Sys :=
  mkSys (initial admin) d t [] idle.

(** *** Notions used to state the properties *)

(** The most recent of the notifications [ns] (oldest first) that is
    about participant [uid]. *)
Definition latest_for (uid : Id) (ns : list TypingStatus)
  : option TypingStatus :=
  last (filter (λ n, t_user_id n = uid) ns).

(** The entries the session holds for participant [uid]. *)
Definition entries_of (uid : Id) (s : State) : list TypingStatus :=
  filter (λ e, t_user_id e = uid) (typingStatus s).

(** The messages the history fetch marks: unread, and sent by
    somebody other than the viewer. *)
Definition to_mark (viewer : option Id) (m : Message) : Prop :=
  m_read_at m = None ∧ Some (m_user_id m) ≠ viewer.

#[global] Instance to_mark_dec viewer m : Decision (to_mark viewer m).
Proof. unfold to_mark. apply _. Defined.

(** A trace without any request to [chat_conversations]. *)
Definition no_conversation_request (tr : list Effect) : Prop :=
  Forall (λ e, match e with
               | chat_conversations_select _
               | chat_conversations_insert _ => False
               | _ => True
               end) tr.

(** The requests every end-user session starts with, the row a create
    adds, and the state of a session that has resolved [conv]. *)
Definition setup_requests (uid : Id) : list Effect :=
  [auth_getUser; profiles_select uid; chat_conversations_select uid].

Definition created (uid : Id) (t : Time) (d : Tables) : Conversation :=
  mkConversation (Db.gen_random_uuid (c_id <$> chat_conversations d))
                 uid "active" t t.

Definition opened (uid : Id) (d : Tables) (conv : Conversation) : State :=
  mkState false [] [] false (Some (c_id conv)) (Some uid)
          (Db.profiles_select uid d) [] None 0 None.

(** The same situation at a later reading of the clock. *)
Definition at_time (t : Time) (w : Sys) : Sys :=
  mkSys (ui w) (db w) t (trace w) (loop w).

End ChatSupport.

(** ** The profile form (ProfileForm.tsx) *)

Module ProfileForm.

Record ValidationErrors := mkErrors {
  e_full_name : option string;
  e_phone : option string;
  e_address : option string;
  e_date_of_birth : option string;
  e_monthly_income : option string
}.

Inductive Effect :=
| auth_getUser
| profiles_select (user_id : Id)
| profiles_upsert (updates : UserProfile) (updated_at : Time)
| toast_error (msg : string)
| toast_success (msg : string)
| console_error (msg : string).

Record State := mkState {
  loading : bool;
  success : bool;
  errors : ValidationErrors;
  profile : UserProfile
}.

(** The [error] of a store response: its [code], whether the object is
    an [Error] instance, and its [message]. *)
Record StoreError := mkStoreError {
  code : string;
  instanceofError : bool;
  message : string
}.

(** What the handler finds around it: [navigator.onLine], the session
    user, today's date in local time, the time zone (what
    [getTimezoneOffset()] returns for midnight UTC of a given day), the
    clock, and the answers of the profile store to the upsert and to the
    select that follows it. *)
Record Env := mkEnv {
  onLine : bool;
  user : option Id;
  today : Date;
  timezoneOffset : Date → Z;
  clock : Time;
  upsert_error : option StoreError;
  select_data : option UserProfile;
  select_error : option StoreError
}.

(** [!text?.trim() || text.length < n] *)
Definition too_short (text : option jsstring) (n : nat) : bool :=
  match text with
  | None => true
  | Some v => negb (truthy (trim v)) || bool_decide (length v < n)
  end.

(** [today.getFullYear() - birthDate.getFullYear()] *)
Definition age (today birthDate : Date) : Z :=
  (getFullYear today - getFullYear birthDate)%Z.

Definition validationErrors (env : Env) (p : UserProfile)
  : ValidationErrors :=
  mkErrors
    (if too_short (full_name p) 2
     then Some "Full name must be at least 2 characters long" else None)
    (if too_short (phone p) 10
     then Some "Phone number must be at least 10 characters long" else None)
    (if too_short (address p) 5
     then Some "Address must be at least 5 characters long" else None)
    (match date_of_birth p with
     | NoDate => Some "Date of birth is required"
     | InvalidDate => None     (* the age is NaN, and NaN < 18 is false *)
     | ValidDate written =>
         let birthDate := new_Date (timezoneOffset env written) written in
         if (age (today env) birthDate <? 18)%Z
         then Some "You must be at least 18 years old" else None
     end)
    (if falsy_number (monthly_income p) || le_zero (monthly_income p)
     then Some "Monthly income must be greater than 0" else None).

(** [Object.keys(newErrors).length === 0] *)
Definition no_errors (e : ValidationErrors) : bool :=
  match e with
  | mkErrors None None None None None => true
  | _ => false
  end.

Definition validateProfile (env : Env) (p : UserProfile) : bool :=
  no_errors (validationErrors env p).

Definition fetchProfile (env : Env) (s : State) : State * list Effect :=
  if negb (onLine env)
  then (s, [toast_error
    "No internet connection. Please check your connection and try again."])
  else
    match user env with
    | None =>
        (s, [auth_getUser;
             toast_error "User session expired. Please log in again."])
    | Some uid =>
        match select_error env with
        | Some error =>
            if bool_decide (code error ≠ "PGRST116"%string)
            then (s, [auth_getUser; profiles_select uid;
                      console_error "Error fetching profile:";
                      toast_error
                        "Failed to load profile data. Please try again."])
            else (s, [auth_getUser; profiles_select uid])
        | None =>
            (match select_data env with
             | Some data => mkState (loading s) (success s) (errors s) data
             | None => s
             end, [auth_getUser; profiles_select uid])
        end
    end.

Definition failed (s : State) (validated : ValidationErrors)
    (before : list Effect) (errorMessage : string)
  : State * list Effect :=
  (mkState false false validated (profile s),
   before ++ [console_error "Error updating profile:";
              toast_error ("Unable to update profile: " +:+ errorMessage)]).

Definition handleSubmit (env : Env) (s : State) : State * list Effect :=
  let p := profile s in
  let validated := validationErrors env p in
  if negb (validateProfile env p)
  then (mkState (loading s) (success s) validated p,
        [toast_error "Please fix the errors in the form"])
  else
    if negb (onLine env)
    then failed s validated [] "No internet connection"
    else
      match user env with
      | None => failed s validated [auth_getUser] "No user found"
      | Some uid =>
          let updates :=
            mkProfile uid (trim <$> full_name p) (trim <$> address p)
                      (trim <$> phone p) (date_of_birth p)
                      (employment_status p) (monthly_income p)
                      (is_admin p) in
          let sent := [auth_getUser; profiles_upsert updates (clock env)] in
          match upsert_error env with
          | Some error =>
              if bool_decide (code error = "23514"%string)
              then (mkState false false validated p,
                    sent ++ [toast_error
                      "Please ensure all fields meet the minimum requirements"])
              else if bool_decide (code error = "23505"%string)
              then (mkState false false validated p,
                    sent ++ [toast_error "This profile already exists"])
              else failed s validated sent
                     (if instanceofError error then message error
                      else "An unexpected error occurred")
          | None =>
              let '(s', fetched) :=
                fetchProfile env (mkState true true validated p) in
              (mkState false (success s') (errors s') (profile s'),
               sent ++ [toast_success "Profile updated successfully!"]
                    ++ fetched)
          end
      end.

(** Whether a handler sent a write to the profile store. *)
Definition is_upsert (e : Effect) : bool :=
  match e with profiles_upsert _ _ => true | _ => false end.

(** The age the rule is about, in completed years: the year difference,
    less one when the birthday of the current year is still ahead.
    This is also the store's [age_check],
    [date_of_birth <= CURRENT_DATE - INTERVAL '18 years']. *)
Definition completed_years (today birthDate : Date) : Z :=
  (year today - year birthDate
   - if (month today <? month birthDate)
        || (month today =? month birthDate) && (day today <? day birthDate)
     then 1 else 0)%Z.

(** The length of a text field, an absent one counting for none. *)
Definition text_length (text : option jsstring) : nat :=
  from_option length 0 text.

End ProfileForm.

(** ** The sign-in form (AuthForm.tsx) *)

Module AuthForm.

Definition chars : jsstring :=
  lit "ABCDEFGHJKLMNPQRSTUVWXYZabcdefghijkmnpqrstuvwxyz23456789".

(** [s.charAt(i)]: the empty string when [i] is out of range. *)
Definition charAt (s : jsstring) (i : Z) : jsstring :=
  if (i <? 0)%Z then []
  else match s !! Z.to_nat i with
       | Some c => [c]
       | None => []
       end.

(** [random i] is the value of the [i]-th call of [Math.random()], a
    double; the index is
    [Math.floor(Math.random() * chars.length)], with the product of
    doubles. *)
Definition generateCaptchaText (random : nat → Q) : jsstring :=
  foldl (λ captcha i,
           captcha ++ charAt chars
             (Qfloor (fmul (random i)
                           (inject_Z (Z.of_nat (length chars))))))
        [] (seq 0 6).

Inductive Effect :=
| signInWithPassword (email password : jsstring)
| signUp (email password : jsstring)
| toast_error (msg : string)
| toast_success (msg : string)
| console_error (msg : string).

Definition is_auth_request (e : Effect) : bool :=
  match e with
  | signInWithPassword _ _ | signUp _ _ => true
  | _ => false
  end.

Record State := mkState {
  email : jsstring;
  password : jsstring;
  isLogin : bool;
  loading : bool;
  error : option string;
  captchaText : jsstring;
  userCaptchaInput : jsstring
}.

(** What the handler finds around it: [navigator.onLine], the random
    source, the runtime's [String.prototype.toLowerCase], and the error
    of the auth response: absent, or whether it is an [Error] instance
    and its message. *)
Record Env := mkEnv {
  onLine : bool;
  random : nat → Q;
  toLowerCase : jsstring → jsstring;
  auth_error : option (bool * string)
}.

Definition refreshCaptcha (env : Env) (s : State) : State :=
  mkState (email s) (password s) (isLogin s) (loading s) (error s)
          (generateCaptchaText (random env)) [].

(** [email.includes('@')] *)
Definition includes_at (v : jsstring) : bool :=
  bool_decide (64%N ∈ v).

Definition validateForm (s : State) : bool * list Effect :=
  if negb (truthy (email s)) || negb (truthy (password s))
  then (false, [toast_error "Please fill in all fields"])
  else if negb (includes_at (email s))
  then (false, [toast_error "Please enter a valid email address"])
  else if bool_decide (length (password s) < 6)
  then (false, [toast_error "Password must be at least 6 characters long"])
  else (true, []).

(** The [catch] and [finally] blocks. *)
Definition failed (env : Env) (s : State) (before : list Effect)
    (errorMessage : string) : State * list Effect :=
  (refreshCaptcha env
     (mkState (email s) (password s) (isLogin s) false (Some errorMessage)
              (captchaText s) (userCaptchaInput s)),
   before ++ [toast_error errorMessage;
              console_error "Authentication error:"]).

Definition handleSubmit (env : Env) (s : State) : State * list Effect :=
  let '(valid, toasts) := validateForm s in
  if negb valid then (s, toasts)
  else if negb (bool_decide (toLowerCase env (userCaptchaInput s)
                             = toLowerCase env (captchaText s)))
  then (refreshCaptcha env s,
        [toast_error "Incorrect CAPTCHA. Please try again."])
  else
    if negb (onLine env) then failed env s [] "No internet connection"
    else
      let request := if isLogin s
                     then signInWithPassword (email s) (password s)
                     else signUp (email s) (password s) in
      match auth_error env with
      | Some (instanceofError, message) =>
          failed env s [request]
                 (if instanceofError then message else "An error occurred")
      | None =>
          (refreshCaptcha env
             (mkState (email s) (password s) (isLogin s) false None
                      (captchaText s) (userCaptchaInput s)),
           [request;
            toast_success
              (if isLogin s
               then "Welcome back! You've successfully logged in."
               else "Account created successfully! Please check your email.")])
      end.

End AuthForm.

(** ** The sweep of stale typing flags (chat enhancement migration) *)

Module Housekeeping.

(** [SET is_typing = false] on one row. *)
Definition clear_flag (r : TypingStatus) : TypingStatus :=
  mkTypingStatus (t_id r) (t_conversation_id r) (t_user_id r) false
                 (t_last_updated r).

(** [last_updated < now() - interval '10 seconds'], in milliseconds. *)
Definition stale (now : Time) (r : TypingStatus) : Prop :=
  t_last_updated r + 10 * 1000 < now.

#[global] Instance stale_dec now r : Decision (stale now r).
Proof. unfold stale. apply _. Defined.

(** The function [cleanup_typing_status()]:
    [UPDATE chat_typing_status SET is_typing = false
     WHERE last_updated < now() - interval '10 seconds']. *)
Definition cleanup_typing_status (now : Time) (rows : list TypingStatus)
  : list TypingStatus :=
  (λ r, if decide (stale now r) then clear_flag r else r) <$> rows.

End Housekeeping.

Import Housekeeping.

(** ** Notions used to state further properties *)

Module Notions.

Import ChatSupport.

(** The storage path [uploadFile] builds for a known user:
    [`${userId}/${random}.${fileExt}`]. *)
Definition upload_path (uid : Id) (random : jsstring) (f : File) : jsstring :=
  id_text uid ++ lit "/" ++ random ++ lit "." ++ lastSegment 46%N [] (f_name f).

(** The compose state after a successful send. *)
Definition cleared (s : State) : State :=
  mkState (isAdmin s) (messages s) [] (loading s) (conversationId s)
          (userId s) (profile s) (typingStatus s) None 0 (typingTimeoutRef s).

(** The "Someone is typing..." line and the [disabled] attribute of the
    send button, as [render] computes them. *)
Definition someoneIsTyping (s : State) : bool :=
  bool_decide (Exists (λ status, t_is_typing status = true
                                 ∧ Some (t_user_id status) ≠ userId s)
                      (typingStatus s)).

Definition sendDisabled (s : State) : bool :=
  negb (truthy (trim (newMessage s))) && bool_decide (selectedFile s = None).

(** The timeouts that [clearTimeout(typingTimeoutRef.current)] leaves
    pending. *)
Definition kept (w : Sys) : list Timeout :=
  match typingTimeoutRef (ui w) with
  | Some id => filter (λ timeout, timeoutID timeout ≠ id) (timers (loop w))
  | None => timers (loop w)
  end.

(** The situation in which the callback of a timeout that has fallen
    due starts: at its due time (or at once when that is past), the
    timeout no longer pending. *)
Definition callback_start (timeout : Timeout) (w : Sys) : Sys :=
  mkSys (ui w) (db w) (max (clock w) (due timeout)) (trace w)
        (without (timeoutID timeout) (loop w)).

(** The call of [updateTypingStatus] suspended in a session with
    identities [cid] and [uid]. *)
Definition call_of (cid uid : Id) (isTyping : bool) : Suspended :=
  mkSuspended isTyping cid uid.

(** A session at rest: no call is suspended, and the only timeout that
    may be pending is the one the ref names. *)
Definition settled (w : Sys) : Prop :=
  awaiting (loop w) = [] ∧
  (timers (loop w) = [] ∨
   ∃ timeout, timers (loop w) = [timeout] ∧
              typingTimeoutRef (ui w) = Some (timeoutID timeout)).

(** A keystroke whose upsert is answered before anything else happens:
    it leaves [typed] in the input, the answer arrives [latency]
    milliseconds later, and [pause] milliseconds pass before the next
    event. *)
Record Keystroke := mkKeystroke {
  typed : jsstring;
  latency : nat;
  pause : nat
}.

Definition keystroke (k : Keystroke) : M unit :=
  onChange (typed k);; elapse (latency k);; resume 0;; elapse (pause k).

(** A burst of typing. *)
Definition keystrokes (ks : list Keystroke) : M unit :=
  forEach ks keystroke.

(** The times at which the keystrokes of a burst starting at [t] occur. *)
Fixpoint key_times (t : Time) (ks : list Keystroke) : list Time :=
  match ks with
  | [] => []
  | k :: r => t :: key_times (t + latency k + pause k) r
  end.

(** The order of [created_at]. *)
Definition older (a b : Message) : Prop := m_created_at a ≤ m_created_at b.

(** What [validateProfile] accepts, field by field. *)
Definition text_ok (text : option jsstring) (n : nat) : Prop :=
  ∃ v, text = Some v ∧ trim v ≠ [] ∧ n ≤ length v.

(** The year the form takes for a date of birth as written: the year
    written, except that west of Greenwich 1 January counts for the year
    before. *)
Definition birth_year (env : ProfileForm.Env) (written : Date) : Z :=
  if decide (0 < ProfileForm.timezoneOffset env written
             ∧ month written = 1 ∧ day written = 1)%Z
  then (year written - 1)%Z else year written.

Definition birth_ok (env : ProfileForm.Env) (field : DateField) : Prop :=
  field = InvalidDate ∨
  ∃ written, field = ValidDate written ∧
             (18 ≤ year (ProfileForm.today env) - birth_year env written)%Z.

Definition income_ok (x : number) : Prop :=
  x = PosInfinity ∨ ∃ q, x = Finite q ∧ (0 < q)%Q.

(** What can happen to an open chat component: its two effects, the
    events of the compose form, the answer to a typing upsert, the
    passing of time, and the two kinds of notification. *)
Inductive Event :=
| Mounted                                  (* first effect: [setupChat] *)
| ConversationChanged                      (* second effect *)
| InputChanged (value : jsstring)
| InputBlurred
| UpsertAnswered (i : nat)
| Elapsed (dt : nat)
| FilePicked (file : option File)
| Submitted (random : jsstring) (getPublicUrl : jsstring → jsstring)
| MessageInserted (payload_new : Message)
| TypingStatusChanged (payload_new : TypingStatus).

Definition handle (e : Event) : M unit :=
  match e with
  | Mounted => setupChat
  | ConversationChanged => onConversationId
  | InputChanged value => onChange value
  | InputBlurred => onBlur
  | UpsertAnswered i => resume i
  | Elapsed dt => elapse dt
  | FilePicked file => handleFileSelect file
  | Submitted random getPublicUrl => handleSubmit random getPublicUrl
  | MessageInserted m => onMessageInsert m
  | TypingStatusChanged n => onTypingStatusChange n
  end.

(** The integrity of the chat tables: primary keys, the unique pair of
    the typing table, one active conversation per user, every message in
    an existing conversation, and one object per storage path. *)
Record well_formed (d : Tables) : Prop := mk_well_formed {
  wf_typing : Db.typing_constraints (chat_typing_status d);
  wf_active : Db.one_active_per_user d;
  wf_conversation_ids : NoDup (c_id <$> chat_conversations d);
  wf_message_ids : NoDup (m_id <$> chat_messages d);
  wf_message_conversations :
    Forall (λ m, m_conversation_id m ∈ c_id <$> chat_conversations d)
           (chat_messages d);
  wf_object_paths : NoDup (objects d).*1
}.

(** A request made in the name of [who]: the requests that carry a user
    identity carry that one, and an upload goes under that user's
    folder. *)
Definition acts_as (who : option Id) (e : Effect) : Prop :=
  match e with
  | profiles_select u
  | chat_conversations_select u
  | chat_conversations_insert u
  | chat_messages_insert _ u _ _ _ _
  | chat_typing_status_upsert _ u _ _ => who = Some u
  | ChatSupport.storage_upload path _ =>
      ∃ u, who = Some u ∧ (id_text u ++ lit "/") `prefix_of` path
  | _ => True
  end.

(** The session acts for the signed-in user of the platform, or for
    nobody yet; so do its pending timeouts and its suspended calls. *)
Definition acting_for (who : option Id) (w : Sys) : Prop :=
  session (db w) = who ∧
  (userId (ui w) = None ∨ userId (ui w) = who) ∧
  Forall (acts_as who) (trace w) ∧
  Forall (λ timeout, who = Some (to_user_id timeout)) (timers (loop w)) ∧
  Forall (λ call, who = Some (su_user_id call)) (awaiting (loop w)).

End Notions.

Import Notions.

(** * Properties *)

Import Db ChatSupport.

(** ** Strings *)

Section Trim.

Implicit Types s : jsstring.

Lemma trimStart_blank s :
  trimStart s = [] ↔ forallb isWhiteSpace s = true.
Proof.
  induction s as [|c r IH]; simpl; [done|].
  destruct (isWhiteSpace c); simpl; [exact IH|].
  split; discriminate.
Qed.

Lemma trimStart_suffix s : trimStart s `suffix_of` s.
Proof.
  induction s as [|c r IH]; simpl; [done|].
  destruct (isWhiteSpace c); [by apply suffix_cons_r | done].
Qed.

Lemma forallb_rev s :
  forallb isWhiteSpace (rev s) = forallb isWhiteSpace s.
Proof.
  induction s as [|c r IH]; simpl; [done|].
  rewrite forallb_app, IH. simpl. rewrite andb_true_r. apply andb_comm.
Qed.

(** [trim] yields the empty string exactly on strings made of white
    space only (the empty one among them). *)
Lemma trim_blank s : trim s = [] ↔ forallb isWhiteSpace s = true.
Proof.
  unfold trim, trimEnd. split.
  - intros H. apply (f_equal (@rev _)) in H. rewrite rev_involutive in H.
    simpl in H. apply trimStart_blank in H. rewrite forallb_rev in H.
    destruct (trimStart s) as [|c r] eqn:E; [by apply trimStart_blank|].
    exfalso. destruct s as [|c' r']; [done|]. simpl in E.
    destruct (isWhiteSpace c') eqn:Ec'.
    + assert (Hall : forallb isWhiteSpace (trimStart r') = true)
        by (by rewrite E).
      clear -Hall E. induction r' as [|x r' IH]; [done|]. simpl in *.
      destruct (isWhiteSpace x) eqn:Ex; [by apply IH|].
      simpl in Hall. by rewrite Ex in Hall.
    + injection E as <- <-. simpl in H. by rewrite Ec' in H.
  - intros H. apply trimStart_blank in H. by rewrite H.
Qed.

Lemma truthy_trim_blank s :
  truthy (trim s) = false ↔ forallb isWhiteSpace s = true.
Proof.
  rewrite <- trim_blank. destruct (trim s); simpl; split; done.
Qed.

End Trim.

(** ** Sending and attaching *)

(** C5. A send attempt whose text is empty or made of white space only,
    with no attachment staged, is rejected whatever else the session
    holds: the handler returns at its guard, so nothing is emitted (no
    upload, no insert), the tables are untouched and the draft state is
    as it was. *)
Theorem handleSubmit_blank_rejected (random : jsstring)
    (getPublicUrl : jsstring → jsstring) (w : Sys) :
  forallb isWhiteSpace (newMessage (ui w)) = true →
  selectedFile (ui w) = None →
  handleSubmit random getPublicUrl w = (tt, w).
Proof.
  intros Hblank Hfile. apply truthy_trim_blank in Hblank.
  unfold handleSubmit, mbind, M_bind, get. simpl.
  rewrite Hblank, Hfile. simpl. reflexivity.
Qed.

Lemma handleSubmit_blank_rejected_witness :
  let w := mkSys (mkState false [] (lit "  ") false (Some 1) (Some 7) None
                          [] None 0 None)
                 (empty_tables (Some 7)) 100 [] idle in
  trace (run (handleSubmit (lit "k3x") id) w) = [] ∧
  db (run (handleSubmit (lit "k3x") id) w) = db w.
Proof.
  intros w. unfold run.
  rewrite (handleSubmit_blank_rejected (lit "k3x") id w); [done | done | done].
Defined.

(** C6. A file of more than 5 MiB is refused when it is picked: the only
    effect is the error toast (no request of any kind), the tables are
    untouched, and the session state, draft text and staged attachment
    included, is unchanged. *)
Theorem handleFileSelect_oversized_rejected (f : File) (w : Sys) :
  (5 * 1024 * 1024 < f_size f)%N →
  let w' := run (handleFileSelect (Some f)) w in
  trace w' = trace w ++ [toast_error "File size must be less than 5MB"] ∧
  filter (λ e, is_request e = true) (trace w')
    = filter (λ e, is_request e = true) (trace w) ∧
  db w' = db w ∧
  ui w' = ui w.
Proof.
  intros Hsize. unfold run, handleFileSelect.
  apply N.ltb_lt in Hsize. rewrite Hsize. simpl.
  repeat split. rewrite filter_app. simpl.
  by rewrite app_nil_r.
Qed.

Lemma handleFileSelect_oversized_rejected_witness :
  let f := mkFile (lit "scan.pdf") (6 * 1024 * 1024) (lit "application/pdf") in
  let w := mkSys (mkState false [] (lit "draft") false (Some 1) (Some 7) None
                          [] None 0 None)
                 (empty_tables (Some 7)) 100 [] idle in
  trace (run (handleFileSelect (Some f)) w)
    = [toast_error "File size must be less than 5MB"] ∧
  newMessage (ui (run (handleFileSelect (Some f)) w)) = lit "draft".
Proof.
  intros f w.
  destruct (handleFileSelect_oversized_rejected f w) as (Ht & _ & _ & Hui);
    [done|].
  split; [exact Ht | by rewrite Hui].
Defined.

(** ** Lists *)

Lemma filter_none {A} (P : A → Prop) `{∀ x, Decision (P x)} (l : list A) :
  (∀ x, x ∈ l → ¬ P x) → filter P l = [].
Proof.
  induction l as [|x l IH]; intros Hl; [done|].
  rewrite filter_cons, decide_False by (apply Hl; left).
  apply IH. intros y Hy. apply Hl. by right.
Qed.

Lemma filter_all {A} (P : A → Prop) `{∀ x, Decision (P x)} (l : list A) :
  (∀ x, x ∈ l → P x) → filter P l = l.
Proof.
  induction l as [|x l IH]; intros Hl; [done|].
  rewrite filter_cons, decide_True by (apply Hl; left).
  f_equal. apply IH. intros y Hy. apply Hl. by right.
Qed.

(** ** The in-memory typing list *)

Section TypingList.

Implicit Types (ns cur : list TypingStatus) (n : TypingStatus).

(** What [onTypingStatusChange] does to the list. *)
Let replace_entry cur n : list TypingStatus :=
  filter (λ status, t_user_id status ≠ t_user_id n) cur ++ [n].

Lemma onTypingStatusChange_ui n w :
  typingStatus (ui (run (onTypingStatusChange n) w))
    = replace_entry (typingStatus (ui w)) n.
Proof. reflexivity. Qed.

Lemma feed_typingStatus ns w :
  typingStatus (ui (run (forEach ns onTypingStatusChange) w))
    = foldl replace_entry (typingStatus (ui w)) ns.
Proof.
  revert w. induction ns as [|n ns IH]; intros w; [done|].
  change (run (forEach (n :: ns) onTypingStatusChange) w)
    with (run (forEach ns onTypingStatusChange)
              (run (onTypingStatusChange n) w)).
  by rewrite IH, onTypingStatusChange_ui.
Qed.

Lemma replace_entry_NoDup cur n :
  NoDup (t_user_id <$> cur) → NoDup (t_user_id <$> replace_entry cur n).
Proof.
  intros Hnd. unfold replace_entry. rewrite fmap_app. apply NoDup_app.
  split; [|split].
  - eapply sublist_NoDup; [exact Hnd|].
    apply fmap_sublist, sublist_filter.
  - intros u Hu Hin. apply list_elem_of_fmap in Hu as (e & -> & He).
    apply list_elem_of_filter in He as [Hne _].
    apply list_elem_of_singleton in Hin. done.
  - apply NoDup_singleton.
Qed.

Lemma replace_entry_same cur n :
  filter (λ e, t_user_id e = t_user_id n) (replace_entry cur n) = [n].
Proof.
  unfold replace_entry. rewrite filter_app, list_filter_filter.
  rewrite filter_none by (intros e _ [-> ?]; done).
  simpl. rewrite filter_cons. by case_decide.
Qed.

Lemma replace_entry_other cur n uid :
  t_user_id n ≠ uid →
  filter (λ e, t_user_id e = uid) (replace_entry cur n)
    = filter (λ e, t_user_id e = uid) cur.
Proof.
  intros Hne. unfold replace_entry. rewrite filter_app.
  rewrite list_filter_filter_l by (intros e ->; done).
  rewrite filter_cons, decide_False by done. by rewrite app_nil_r.
Qed.

Lemma latest_for_snoc uid ns n :
  latest_for uid (ns ++ [n])
    = if decide (t_user_id n = uid) then Some n else latest_for uid ns.
Proof.
  unfold latest_for. rewrite filter_app, filter_cons.
  case_decide; rewrite filter_nil, ?app_nil_r; [apply last_snoc | done].
Qed.

Lemma foldl_replace_entry ns cur :
  (NoDup (t_user_id <$> cur) →
   NoDup (t_user_id <$> foldl replace_entry cur ns)) ∧
  ∀ uid, filter (λ e, t_user_id e = uid) (foldl replace_entry cur ns)
         = match latest_for uid ns with
           | Some n => [n]
           | None => filter (λ e, t_user_id e = uid) cur
           end.
Proof.
  induction ns as [|n ns [IHnd IHlast]] using rev_ind; [done|].
  rewrite foldl_snoc. split.
  - intros Hnd. by apply replace_entry_NoDup, IHnd.
  - intros uid. rewrite latest_for_snoc. case_decide as Huid.
    + subst uid. apply replace_entry_same.
    + rewrite replace_entry_other by done. apply IHlast.
Qed.

(** C10. Whatever typing notifications a session processes, its list
    keeps one entry per participant at most, and for a participant that
    a notification was about it holds exactly the payload of the most
    recent one (for the others, what it held before: nothing in a
    session that has just been opened). *)
Theorem typingStatus_latest_per_participant ns w :
  NoDup (t_user_id <$> typingStatus (ui w)) →
  let w' := run (forEach ns onTypingStatusChange) w in
  NoDup (t_user_id <$> typingStatus (ui w')) ∧
  ∀ uid, entries_of uid (ui w')
         = match latest_for uid ns with
           | Some n => [n]
           | None => entries_of uid (ui w)
           end.
Proof.
  intros Hnd w'. unfold entries_of. subst w'. rewrite feed_typingStatus.
  destruct (foldl_replace_entry ns (typingStatus (ui w))) as [H1 H2].
  split; [by apply H1 | exact H2].
Qed.

End TypingList.

Lemma typingStatus_latest_per_participant_witness :
  let ns := [mkTypingStatus 1 1 7 true 10; mkTypingStatus 2 1 9 true 20;
             mkTypingStatus 1 1 7 false 30] in
  let w' := run (forEach ns onTypingStatusChange)
                (start false (empty_tables (Some 7)) 0) in
  NoDup (t_user_id <$> typingStatus (ui w')) ∧
  entries_of 7 (ui w') = [mkTypingStatus 1 1 7 false 30] ∧
  entries_of 9 (ui w') = [mkTypingStatus 2 1 9 true 20] ∧
  entries_of 8 (ui w') = [].
Proof.
  intros ns w'.
  destruct (typingStatus_latest_per_participant ns
              (start false (empty_tables (Some 7)) 0)) as [Hnd Hlast].
  - simpl. apply NoDup_nil_2.
  - split; [exact Hnd|].
    split; [exact (Hlast 7)|]. split; [exact (Hlast 9) | exact (Hlast 8)].
Defined.

(** ** Read receipts *)

Section ReadReceipts.

Implicit Types (d : Tables) (m : Message) (permitted : bool).

Lemma with_messages_same d : with_messages (chat_messages d) d = d.
Proof. by destruct d. Qed.

Lemma typing_triggers_keep_messages (l : list Message) (t : Time) d :
  chat_messages
    (foldl (λ d' m, update_typing_status (set_read_at t m) t d') d l)
  = chat_messages d.
Proof.
  revert d. induction l as [|m l IH]; intros d; [done|].
  simpl. by rewrite IH.
Qed.

Lemma update_read_at_rows permitted mid t d :
  chat_messages (update_read_at permitted mid t d)
  = (λ m, if decide (unread_with_id mid m ∧ permitted = true)
          then set_read_at t m else m)
      <$> chat_messages d.
Proof. unfold update_read_at. by rewrite typing_triggers_keep_messages. Qed.

Lemma updated_rows_are_read mid t d m :
  m ∈ chat_messages (update_read_at true mid t d) → ¬ unread_with_id mid m.
Proof.
  rewrite update_read_at_rows. intros Hm.
  apply list_elem_of_fmap in Hm as (m0 & -> & _).
  case_decide as Hu; [|tauto]. intros [_ Hnone]. discriminate.
Qed.

(** An update that finds no row to change, because none with that
    identity is unread or because the statement may see none, changes
    nothing at all: no row is rewritten and no row trigger runs. *)
Lemma update_read_at_nothing permitted mid t d :
  (∀ m, m ∈ chat_messages d → ¬ (unread_with_id mid m ∧ permitted = true)) →
  update_read_at permitted mid t d = d.
Proof.
  intros Hnone. unfold update_read_at.
  rewrite filter_none by done. simpl.
  set (f := λ m, if decide (unread_with_id mid m ∧ permitted = true)
                 then set_read_at t m else m).
  assert (Hsame : f <$> chat_messages d = chat_messages d).
  { transitivity (id <$> chat_messages d); [|apply list_fmap_id].
    apply list_fmap_ext. intros i m Hm. unfold f.
    rewrite decide_False; [done|].
    apply Hnone. by eapply list_elem_of_lookup_2. }
  rewrite Hsame. apply with_messages_same.
Qed.

(** The conditional update is idempotent whatever it is permitted to
    see: the filter on a null [read_at] leaves it nothing to do the
    second time. *)
Lemma update_read_at_twice permitted mid t1 t2 d :
  update_read_at permitted mid t2 (update_read_at permitted mid t1 d)
  = update_read_at permitted mid t1 d.
Proof.
  destruct permitted.
  - apply update_read_at_nothing. intros m Hm [Hu _].
    by apply updated_rows_are_read in Hm.
  - rewrite !(update_read_at_nothing false); [done | |];
      intros m _ [_ ?]; done.
Qed.

(** [chat_messages] has no policy for UPDATE: the mark the client
    sends changes no row. *)
Lemma messages_mark_read_denied mid t d : messages_mark_read mid t d = d.
Proof.
  unfold messages_mark_read. apply update_read_at_nothing.
  intros m _ [_ ?]. done.
Qed.

Lemma markMessageAsRead_db mid w :
  db (run (markMessageAsRead mid) w)
  = messages_mark_read mid (clock w) (db w).
Proof. reflexivity. Qed.

(** C2. A second mark is a no-op: marking a message read twice, the
    second time at any later moment, leaves the store as the first mark
    left it, and a read timestamp that is set is never rewritten.  The
    same holds of the conditional update itself whatever rows it may
    see: it moves [read_at] from unset to the time of the update on the
    unread rows of that message it sees, keeps every other row, and
    changes nothing when repeated.  (Under the policies of the
    migrations the client's update sees no row, so that the first mark
    changes nothing either.) *)
Theorem markMessageAsRead_idempotent (mid : Id) (t2 : Time) (w : Sys) :
  let w1 := run (markMessageAsRead mid) w in
  let w2 := run (markMessageAsRead mid) (at_time t2 w1) in
  db w2 = db w1 ∧
  Forall2 (λ m m', is_Some (m_read_at m) → m' = m)
          (chat_messages (db w)) (chat_messages (db w2)) ∧
  ∀ permitted (t1 : Time),
    let d1 := update_read_at permitted mid t1 (db w) in
    Forall2 (λ m m', m' = if decide (unread_with_id mid m ∧ permitted = true)
                          then set_read_at t1 m else m)
            (chat_messages (db w)) (chat_messages d1) ∧
    update_read_at permitted mid t2 d1 = d1.
Proof.
  intros w1 w2. subst w1 w2.
  rewrite !markMessageAsRead_db. simpl.
  rewrite !messages_mark_read_denied. split; [done|]. split.
  - apply Forall_Forall2_diag, Forall_forall. done.
  - intros permitted t1. split.
    + rewrite update_read_at_rows.
      apply Forall2_fmap_r, Forall_Forall2_diag. by apply Forall_forall.
    + apply update_read_at_twice.
Qed.

End ReadReceipts.

(** ** Which messages a session marks read *)

Section MarkRead.

Implicit Types (w : Sys) (m payload : Message).

Lemma markMessageAsRead_trace mid w :
  trace (run (markMessageAsRead mid) w)
    = trace w ++ [chat_messages_update mid (clock w)] ∧
  clock (run (markMessageAsRead mid) w) = clock w.
Proof. by split. Qed.

Lemma forEach_marks_trace (viewer : option Id) (data : list Message) w :
  let w' := run (forEach data (λ message,
              if bool_decide (m_read_at message = None)
                 && bool_decide (Some (m_user_id message) ≠ viewer)
              then markMessageAsRead (m_id message) else mret tt)) w in
  trace w' = trace w ++ ((λ m, chat_messages_update (m_id m) (clock w))
                           <$> filter (to_mark viewer) data) ∧
  clock w' = clock w.
Proof.
  revert w. induction data as [|m data IH]; intros w.
  - simpl. by rewrite app_nil_r.
  - set (f := λ message : Message, _) in *.
    change (run (forEach (m :: data) f) w)
      with (run (forEach data f) (run (f m) w)).
    destruct (IH (run (f m) w)) as [Htr Hcl]. cbv zeta.
    rewrite Htr, Hcl, filter_cons.
    destruct (decide (to_mark viewer m)) as [[Hr Hu]|Hn].
    + assert (f m = markMessageAsRead (m_id m)) as ->
        by (unfold f; by rewrite !bool_decide_true).
      simpl. by rewrite <- app_assoc.
    + assert (f m = mret tt) as ->; [|done].
      unfold f.
      destruct (decide (m_read_at m = None)) as [Hr|Hr].
      * rewrite (bool_decide_false (Some (m_user_id m) ≠ viewer)).
        -- by rewrite andb_false_r.
        -- intros Hu. apply Hn. by split.
      * by rewrite (bool_decide_false (m_read_at m = None)).
Qed.

(** On opening a conversation, the viewer's own messages and the
    messages already read are not marked. *)
Lemma fetchMessages_marks (cid : Id) w :
  conversationId (ui w) = Some cid →
  trace (run fetchMessages w)
    = trace w ++ chat_messages_select (Some cid)
        :: ((λ m, chat_messages_update (m_id m) (clock w))
              <$> filter (to_mark (userId (ui w)))
                    (messages_select cid (db w))).
Proof.
  intros Hcid. unfold fetchMessages, run, mbind, M_bind, get. simpl.
  rewrite Hcid. simpl.
  match goal with
  | |- context [forEach ?data ?f ?w0] =>
      destruct (forEach_marks_trace (userId (ui w)) data w0) as [Htr _]
  end.
  unfold run in Htr. simpl in Htr.
  match goal with
  | |- context [forEach ?data ?f ?w0] => destruct (forEach data f w0)
  end.
  simpl in *. rewrite Htr. by rewrite <- app_assoc.
Qed.

(** The insert notification is marked whoever sent the message: the
    callback has no test on the sender. *)
Lemma onMessageInsert_always_marks payload w :
  trace (run (onMessageInsert payload) w)
    = trace w ++ [chat_messages_update (m_id payload) (clock w)].
Proof. reflexivity. Qed.

End MarkRead.

(** C1 asks for a mark-read write exactly when the sender of the
    notified message is not the viewer.  The callback of the message
    subscription breaks it for the viewer's own messages: user 7 opens
    the chat, sends "Hello", and on the notification of that very row
    the session issues the mark-read write for its own message.  (The
    store then discards the write, as it does every mark: the row stays
    unread.) *)
Theorem onMessageInsert_marks_own_message :
  let opened := run (setupChat;; onConversationId)
                    (start false (empty_tables (Some 7)) 100) in
  let sent := run (onChange (lit "Hello");; handleSubmit (lit "k3x") id)
                  (at_time 200 opened) in
  let own := mkMessage 1 1 7 (lit "Hello") false 200 None None None false in
  let notified := run (onMessageInsert own) (at_time 250 sent) in
  userId (ui sent) = Some 7 ∧
  chat_messages (db sent) = [own] ∧
  m_user_id own = 7 ∧
  trace notified = trace sent ++ [chat_messages_update 1 250] ∧
  chat_messages (db notified) = [own].
Proof. vm_compute. repeat split. Qed.

(** ** Opening the chat *)

Section Setup.

Implicit Types (d : Tables) (uid : Id) (t : Time).

(** What [setupChat] comes to for an end user: the profile plays no
    part in it. *)
Lemma setupChat_end_user d uid t :
  session d = Some uid →
  run setupChat (start false d t)
  = match conversations_select_active uid d with
    | Some conv => mkSys (opened uid d conv) d t (setup_requests uid) idle
    | None =>
        mkSys (opened uid d (created uid t d))
              (with_conversations
                 (chat_conversations d ++ [created uid t d]) d)
              t (setup_requests uid ++ [chat_conversations_insert uid]) idle
    end.
Proof.
  intros Hs. unfold run, setupChat, start, mbind, M_bind, query, exec.
  simpl. rewrite Hs. simpl.
  destruct (conversations_select_active uid d) as [conv|] eqn:E; simpl;
    [done|].
  unfold conversations_insert. rewrite Hs.
  by rewrite decide_True.
Qed.

(** Support sessions resolve no conversation. *)
Lemma setupChat_admin d t :
  conversationId (ui (run setupChat (start true d t))) = None ∧
  no_conversation_request (trace (run setupChat (start true d t))).
Proof.
  unfold run, setupChat, start, mbind, M_bind, query. simpl.
  destruct (session d); simpl; split; try done;
    repeat constructor.
Qed.

(** The gate is a branch of [render]. *)
Lemma render_gate (s : State) :
  isAdmin s = false →
  truthy_opt (profile s ≫= full_name) = false →
  render s = CompleteYourProfileFirst.
Proof. intros Ha Hn. unfold render. by rewrite Ha, Hn. Qed.

(** C3, as the component has it.  An end user without a usable name
    (no profile row, or a row whose name is absent or empty) gets the
    "Complete Your Profile First" card instead of the chat.  The card
    is chosen when rendering; the setup of the session does not look at
    the profile: it has resolved the user, fetched the profile and
    looked up the active conversation, and when the lookup returned
    none it has created one. *)
Theorem profile_gate_on_render_only d uid t :
  session d = Some uid →
  truthy_opt (Db.profiles_select uid d ≫= full_name) = false →
  let w := run setupChat (start false d t) in
  render (ui w) = CompleteYourProfileFirst ∧
  setup_requests uid `prefix_of` trace w ∧
  (conversations_select_active uid d = None →
   trace w = setup_requests uid ++ [chat_conversations_insert uid] ∧
   chat_conversations (db w)
     = chat_conversations d ++ [created uid t d] ∧
   conversationId (ui w) = Some (c_id (created uid t d))).
Proof.
  intros Hs Hname w. subst w. rewrite (setupChat_end_user d uid t) by done.
  destruct (conversations_select_active uid d) as [conv|]; simpl.
  - split; [by apply render_gate|]. split; [done | discriminate].
  - split; [by apply render_gate|].
    split; [by eexists | done].
Qed.

End Setup.

Lemma profile_gate_on_render_only_witness :
  let d := empty_tables (Some 7) in
  let w := run setupChat (start false d 100) in
  render (ui w) = CompleteYourProfileFirst ∧
  trace w = [auth_getUser; profiles_select 7; chat_conversations_select 7;
             chat_conversations_insert 7].
Proof.
  intros d w.
  destruct (profile_gate_on_render_only d 7 100) as (Hr & _ & Hc);
    [done | done |].
  split; [exact Hr|]. by destruct Hc as (Ht & _).
Defined.

(** C3 as stated fails: for end user 7, who has no profile at all, the
    card is rendered, and yet the setup has looked up and created a
    conversation. *)
Lemma setupChat_incomplete_profile_creates_conversation :
  let w := run setupChat (start false (empty_tables (Some 7)) 100) in
  profile (ui w) = None ∧
  render (ui w) = CompleteYourProfileFirst ∧
  ¬ no_conversation_request (trace w) ∧
  chat_conversations (db w) = [mkConversation 1 7 "active" 100 100].
Proof.
  vm_compute. repeat split.
  intros H. repeat (apply Forall_cons in H as [? H]). done.
Qed.

(** ** One conversation per end user *)

Section Reopen.

Implicit Types (d : Tables) (uid : Id) (t : Time).

Lemma one_active_empty who : one_active_per_user (empty_tables who).
Proof. intros uid. simpl. lia. Qed.

Lemma select_active_cases d uid :
  one_active_per_user d →
  (filter (is_active_of uid) (chat_conversations d) = [] ∧
   conversations_select_active uid d = None) ∨
  (∃ conv, filter (is_active_of uid) (chat_conversations d) = [conv] ∧
           conversations_select_active uid d = Some conv).
Proof.
  intros Hone. specialize (Hone uid). unfold conversations_select_active.
  destruct (filter _ _) as [|conv [|conv' rest]]; simpl in *.
  - by left.
  - right. by exists conv.
  - lia.
Qed.

Lemma created_is_active uid t d : is_active_of uid (created uid t d).
Proof. by split. Qed.

Lemma filter_active_after_create d uid uid' t :
  filter (is_active_of uid')
         (chat_conversations d ++ [created uid t d])
  = filter (is_active_of uid') (chat_conversations d)
    ++ if decide (uid' = uid) then [created uid t d] else [].
Proof.
  rewrite filter_app, filter_cons, filter_nil.
  destruct (decide (uid' = uid)) as [->|Hne].
  - by rewrite decide_True by apply created_is_active.
  - rewrite decide_False; [done|]. intros [Hu _]. simpl in Hu. done.
Qed.

(** The lookup-or-create of [setupChat] maintains the invariant. *)
Lemma setupChat_keeps_one_active d uid t :
  session d = Some uid →
  one_active_per_user d →
  one_active_per_user (db (run setupChat (start false d t))).
Proof.
  intros Hs Hone. rewrite (setupChat_end_user d uid t) by done.
  destruct (select_active_cases d uid Hone) as [[Hnil ->]|(c & _ & ->)];
    [|done].
  intros uid'. simpl. rewrite filter_active_after_create, length_app.
  destruct (decide (uid' = uid)) as [->|_]; simpl.
  - rewrite Hnil. simpl. lia.
  - specialize (Hone uid'). lia.
Qed.

(** C7. For an end user, in a store that holds at most one active
    conversation per user (the store that sessions opened one after
    the other produce), opening the chat sends a create exactly when
    the user has no active conversation; the session resolves to the
    user's single active conversation; and opening the chat again
    resolves to the same conversation identity, sends no create and
    leaves the store as it is.  The profile, complete or not, plays no
    part. *)
Theorem setupChat_reuses_conversation d uid t t' :
  session d = Some uid →
  one_active_per_user d →
  let w1 := run setupChat (start false d t) in
  let w2 := run setupChat (start false (db w1) t') in
  (chat_conversations_insert uid ∈ trace w1
   ↔ filter (is_active_of uid) (chat_conversations d) = []) ∧
  (∃ conv, conversationId (ui w1) = Some (c_id conv) ∧
           filter (is_active_of uid) (chat_conversations (db w1)) = [conv]) ∧
  conversationId (ui w2) = conversationId (ui w1) ∧
  (chat_conversations_insert uid ∉ trace w2) ∧
  db w2 = db w1.
Proof.
  intros Hs Hone w1 w2.
  assert (Hfirst :
    (chat_conversations_insert uid ∈ trace w1
     ↔ filter (is_active_of uid) (chat_conversations d) = []) ∧
    session (db w1) = Some uid ∧
    ∃ conv, conversationId (ui w1) = Some (c_id conv) ∧
            filter (is_active_of uid) (chat_conversations (db w1)) = [conv]).
  { subst w1 w2. rewrite (setupChat_end_user d uid t) by done.
    destruct (select_active_cases d uid Hone)
      as [[Hnil ->]|(c & Hc & ->)]; simpl.
    - split; [|split; [done|]].
      + split; [done|]. intros _. unfold setup_requests.
        rewrite !elem_of_cons. auto.
      + exists (created uid t d). split; [done|].
        rewrite filter_active_after_create, Hnil.
        by rewrite decide_True.
    - split; [|split; [done|]].
      + rewrite Hc. unfold setup_requests. split; [|done].
        rewrite !elem_of_cons, elem_of_nil.
        intros [?|[?|[?|?]]]; done.
      + by exists c. }
  destruct Hfirst as (Hcreate & Hs1 & conv & Hid & Hconv).
  split; [exact Hcreate|]. split; [by exists conv|].
  subst w2. rewrite (setupChat_end_user (db w1) uid t') by done.
  unfold conversations_select_active. rewrite Hconv. simpl.
  split; [done|]. split; [|done].
  unfold setup_requests. rewrite !elem_of_cons, elem_of_nil.
  intros [?|[?|[?|?]]]; done.
Qed.

End Reopen.

Lemma setupChat_reuses_conversation_witness :
  let complete :=
    mkProfile 7 (Some (lit "Amina Otieno")) (Some (lit "12 Moi Avenue"))
              (Some (lit "+254700111222")) (ValidDate (mkDate 1990 5 17))
              (lit "employed") (Finite 85000) false in
  let d := mkTables (Some 7) [complete] [] [] [] [] in
  let w1 := run setupChat (start false d 100) in
  let w2 := run setupChat (start false (db w1) 900) in
  conversationId (ui w1) = Some 1 ∧
  conversationId (ui w2) = Some 1 ∧
  length (chat_conversations (db w2)) = 1.
Proof.
  intros complete d w1 w2.
  destruct (setupChat_reuses_conversation d 7 100 900) as (_ & _ & Hid & _ & Hdb).
  - done.
  - intros uid. simpl. lia.
  - fold w1 in Hid, Hdb. fold w2 in Hid, Hdb.
    rewrite Hdb, Hid. done.
Defined.

(** ** The typing flag and its timer *)

Section Typing.

Implicit Types (w : Sys) (cid uid : Id) (value : jsstring)
  (timeout : Timeout).

Lemma run_seq {A} (a : M A) (b : M unit) w :
  run (a;; b) w = run b (run a w).
Proof. reflexivity. Qed.

(** Past the guard: the timeout the ref names is dropped, the upsert is
    sent and reaches the store, and the call is suspended. *)
Lemma sendTypingStatus_run cid uid (isTyping : bool) w :
  run (sendTypingStatus cid uid isTyping) w
  = mkSys (ui w) (typing_upsert cid uid isTyping (clock w) (db w)) (clock w)
          (trace w ++ [chat_typing_status_upsert cid uid isTyping (clock w)])
          (mkLoop (kept w) (issued (loop w))
                  (awaiting (loop w) ++ [call_of cid uid isTyping])).
Proof.
  unfold run, sendTypingStatus, kept, mbind, M_bind, get. simpl.
  by destruct (typingTimeoutRef (ui w)).
Qed.

(** With both identities known, [updateTypingStatus] passes its
    guard. *)
Lemma updateTypingStatus_known (isTyping : bool) w cid uid :
  conversationId (ui w) = Some cid →
  userId (ui w) = Some uid →
  run (updateTypingStatus isTyping) w
  = run (sendTypingStatus cid uid isTyping) w.
Proof.
  intros Hc Hu. unfold run, updateTypingStatus, mbind, M_bind, get. simpl.
  by rewrite Hc, Hu.
Qed.

(** With one of them unknown it returns at its guard. *)
Lemma updateTypingStatus_unknown (isTyping : bool) w :
  conversationId (ui w) = None ∨ userId (ui w) = None →
  updateTypingStatus isTyping w = (tt, w).
Proof.
  intros H. unfold updateTypingStatus, mbind, M_bind, get. simpl.
  destruct H as [-> | ->]; [done|]. by destruct (conversationId (ui w)).
Qed.

Lemma onChange_known value w cid uid :
  conversationId (ui w) = Some cid →
  userId (ui w) = Some uid →
  let w' := run (onChange value) w in
  let typing := bool_decide (0 < length value) in
  trace w' = trace w ++ [chat_typing_status_upsert cid uid typing (clock w)] ∧
  loop w' = mkLoop (kept w) (issued (loop w))
                   (awaiting (loop w) ++ [call_of cid uid typing]) ∧
  typingTimeoutRef (ui w') = typingTimeoutRef (ui w) ∧
  newMessage (ui w') = value ∧
  conversationId (ui w') = Some cid ∧ userId (ui w') = Some uid ∧
  clock w' = clock w.
Proof.
  intros Hc Hu. unfold onChange. rewrite run_seq. cbv zeta.
  rewrite (updateTypingStatus_known _ _ cid uid) by done.
  by rewrite sendTypingStatus_run.
Qed.

(** The answer to the upsert of a suspended call: the call is no longer
    suspended, and when its argument was [true] a timeout is set, due
    three seconds after the answer, and the ref names it. *)
Lemma resume_run (i : nat) (call : Suspended) w :
  awaiting (loop w) !! i = Some call →
  run (resume i) w
  = if su_isTyping call
    then mkSys (with_timer (Some (S (issued (loop w)))) (ui w)) (db w)
               (clock w) (trace w)
               (mkLoop (timers (loop w)
                          ++ [mkTimeout (S (issued (loop w))) (clock w + 3000)
                                (su_conversation_id call) (su_user_id call)])
                       (S (issued (loop w)))
                       (delete i (awaiting (loop w))))
    else mkSys (ui w) (db w) (clock w) (trace w)
               (mkLoop (timers (loop w)) (issued (loop w))
                       (delete i (awaiting (loop w)))).
Proof.
  intros Hi. unfold run, resume, mbind, M_bind, pending. simpl.
  rewrite Hi. by destruct (su_isTyping call).
Qed.

(** An answer that no call is waiting for does nothing. *)
Lemma resume_none (i : nat) w :
  awaiting (loop w) !! i = None → resume i w = (tt, w).
Proof.
  intros Hi. unfold resume, mbind, M_bind, pending. simpl. by rewrite Hi.
Qed.

(** Time passing with no timeout pending, or with none due yet. *)
Lemma elapse_idle w (dt : nat) :
  timers (loop w) = [] →
  run (elapse dt) w = at_time (clock w + dt) w.
Proof.
  intros Hnone. unfold run, elapse, mbind, M_bind, now, pending. simpl.
  by rewrite Hnone.
Qed.

Lemma elapse_not_due w timeout (dt : nat) :
  timers (loop w) = [timeout] →
  clock w + dt < due timeout →
  run (elapse dt) w = at_time (clock w + dt) w.
Proof.
  intros Hone Hlt. unfold run, elapse, mbind, M_bind, now, pending. simpl.
  rewrite Hone. simpl. unfold mbind, M_bind, pending. simpl.
  rewrite Hone. simpl. by rewrite bool_decide_false by lia.
Qed.

(** The one pending timeout falls due: its callback sends the upsert
    that clears the flag, stamped with the due time. *)
Lemma elapse_due w timeout (dt : nat) :
  timers (loop w) = [timeout] →
  due timeout ≤ clock w + dt →
  let at_due := max (clock w) (due timeout) in
  let cid := to_conversation_id timeout in
  let uid := to_user_id timeout in
  run (elapse dt) w
  = mkSys (ui w) (typing_upsert cid uid false at_due (db w)) (clock w + dt)
          (trace w ++ [chat_typing_status_upsert cid uid false at_due])
          (mkLoop [] (issued (loop w))
                  (awaiting (loop w) ++ [call_of cid uid false])).
Proof.
  intros Hone Hle. unfold run, elapse, mbind, M_bind, now, pending. simpl.
  rewrite Hone. simpl. unfold mbind, M_bind, pending. simpl.
  rewrite Hone. simpl. rewrite bool_decide_true by done. simpl.
  unfold without. rewrite Hone, filter_cons, filter_nil.
  rewrite decide_False by (intros H; by apply H).
  by destruct (typingTimeoutRef (ui w)).
Qed.

Lemma kept_settled w : settled w → kept w = [].
Proof.
  intros [_ [Hnone|(timeout & Hone & Href)]]; unfold kept.
  - rewrite Hnone. by destruct (typingTimeoutRef (ui w)).
  - rewrite Hone, Href, filter_cons, filter_nil.
    rewrite decide_False; [done|]. intros H. by apply H.
Qed.

(** In a session at rest that knows its identities, an input change or
    a loss of focus sends its upsert at once and leaves no timeout
    pending; when the answer arrives, [latency] milliseconds later, a
    timeout is pending exactly if the flag sent was [true], due three
    seconds after the answer, and the session is at rest again. *)
Lemma updateTypingStatus_settled (isTyping : bool) w cid uid (latency : nat) :
  conversationId (ui w) = Some cid →
  userId (ui w) = Some uid →
  settled w →
  let sent := run (updateTypingStatus isTyping) w in
  let answered := run (elapse latency;; resume 0) sent in
  let id := S (issued (loop w)) in
  trace sent
    = trace w ++ [chat_typing_status_upsert cid uid isTyping (clock w)] ∧
  timers (loop sent) = [] ∧
  trace answered = trace sent ∧
  timers (loop answered)
    = (if isTyping
       then [mkTimeout id (clock w + latency + 3000) cid uid] else []) ∧
  (isTyping = true → typingTimeoutRef (ui answered) = Some id) ∧
  settled answered ∧
  clock answered = clock w + latency ∧
  conversationId (ui answered) = Some cid ∧
  userId (ui answered) = Some uid ∧
  newMessage (ui answered) = newMessage (ui w).
Proof.
  intros Hc Hu Hrest. cbv zeta.
  rewrite (updateTypingStatus_known _ _ cid uid) by done.
  rewrite sendTypingStatus_run, (kept_settled w Hrest).
  destruct Hrest as [Hnone _]. rewrite Hnone. simpl.
  rewrite run_seq, elapse_idle by done.
  rewrite (resume_run 0 (call_of cid uid isTyping)) by done.
  destruct isTyping; simpl.
  - repeat split; try done. right. by eexists.
  - repeat split; try done. by left.
Qed.


End Typing.

(** ** Timeouts falling due *)

Section Timeouts.

Implicit Types (w : Sys) (timeout : Timeout) (l : list Timeout)
  (fuel : nat) (until : Time).

Lemma next_due_least l timeout :
  next_due l = Some timeout →
  timeout ∈ l ∧ Forall (λ other, due timeout ≤ due other) l.
Proof.
  revert timeout. induction l as [|x l IH]; intros timeout; [done|].
  simpl. destruct (next_due l) as [later|] eqn:E.
  - destruct (IH later eq_refl) as [Hin Hleast].
    case_decide as Hle; intros [= <-].
    + split; [left|]. constructor; [done|].
      eapply Forall_impl; [exact Hleast|]. intros other Ho. simpl in Ho. lia.
    + split; [by right|]. constructor; [lia | done].
  - intros [= <-]. split; [left|].
    destruct l as [|y l]; [by repeat constructor|].
    simpl in E. destruct (next_due l); [case_decide|]; done.
Qed.

Lemma next_due_none l : next_due l = None → l = [].
Proof.
  destruct l as [|x l]; [done|]. simpl.
  destruct (next_due l); [case_decide|]; done.
Qed.

(** One round of [run_due]: the callback of the timeout that is due
    next, if it is due by [until]. *)
Lemma run_due_step fuel until w :
  run (run_due (S fuel) until) w
  = match next_due (timers (loop w)) with
    | Some timeout =>
        if bool_decide (due timeout ≤ until)
        then run (run_due fuel until)
               (run (sendTypingStatus (to_conversation_id timeout)
                                      (to_user_id timeout) false)
                    (callback_start timeout w))
        else w
    | None => w
    end.
Proof.
  unfold run. simpl. unfold mbind, M_bind, pending. simpl.
  destruct (next_due (timers (loop w))) as [timeout|]; [|done].
  by destruct (bool_decide (due timeout ≤ until)).
Qed.

Lemma elapse_run (dt : nat) w :
  run (elapse dt) w
  = at_time (clock w + dt)
      (run (run_due (length (timers (loop w))) (clock w + dt)) w).
Proof. reflexivity. Qed.

Lemma callback_timers timeout w (cid uid : Id) :
  timers (loop (run (sendTypingStatus cid uid false)
                    (callback_start timeout w)))
  `sublist_of` filter (λ other, timeoutID other ≠ timeoutID timeout)
                      (timers (loop w)).
Proof.
  rewrite sendTypingStatus_run. simpl. unfold kept. simpl.
  destruct (typingTimeoutRef (ui w)); [apply sublist_filter | done].
Qed.

(** The fuel [elapse] gives suffices: when the time has passed, no
    pending timeout is overdue. *)
Lemma run_due_all fuel until w :
  length (timers (loop w)) ≤ fuel →
  Forall (λ timeout, until < due timeout)
         (timers (loop (run (run_due fuel until) w))).
Proof.
  revert w. induction fuel as [|fuel IH]; intros w Hlen.
  - destruct (timers (loop w)) eqn:E; [|simpl in Hlen; lia].
    change (run (run_due 0 until) w) with w. by rewrite E.
  - rewrite run_due_step.
    destruct (next_due (timers (loop w))) as [timeout|] eqn:E.
    + destruct (next_due_least _ _ E) as [Hin Hleast].
      case_bool_decide as Hdue.
      * apply IH.
        pose proof (callback_timers timeout w (to_conversation_id timeout)
                      (to_user_id timeout)) as Hsub.
        apply sublist_length in Hsub.
        pose proof (length_filter_lt
                      (λ other, timeoutID other ≠ timeoutID timeout)
                      (timers (loop w)) timeout Hin) as Hlt.
        assert (length (filter (λ other, timeoutID other ≠ timeoutID timeout)
                               (timers (loop w)))
                < length (timers (loop w))) by (apply Hlt; tauto).
        lia.
      * eapply Forall_impl; [exact Hleast|]. intros other Ho.
        simpl in Ho. lia.
    + apply next_due_none in E. by rewrite E.
Qed.

Lemma elapse_leaves_none_due (dt : nat) w :
  Forall (λ timeout, clock w + dt < due timeout)
         (timers (loop (run (elapse dt) w))).
Proof. rewrite elapse_run. simpl. by apply run_due_all. Qed.

(** Time passing while no pending timeout falls due changes the clock
    only. *)
Lemma elapse_none_due (dt : nat) w :
  Forall (λ timeout, clock w + dt < due timeout) (timers (loop w)) →
  run (elapse dt) w = at_time (clock w + dt) w.
Proof.
  intros Hnone. rewrite elapse_run.
  destruct (timers (loop w)) as [|x l] eqn:E; [done|].
  simpl length. rewrite run_due_step, E.
  destruct (next_due (x :: l)) as [timeout|] eqn:En; [|done].
  destruct (next_due_least _ _ En) as [Hin _].
  rewrite Forall_forall in Hnone. specialize (Hnone timeout Hin).
  by rewrite bool_decide_false by lia.
Qed.

End Timeouts.



(** ** The typing-status table *)

Section TypingTable.

Implicit Types (rows : list TypingStatus) (cid uid : Id) (t : Time).

Lemma gen_random_uuid_fresh (used : list Id) : gen_random_uuid used ∉ used.
Proof. apply max_list_not_elem_of_gt. unfold gen_random_uuid. lia. Qed.

Lemma at_most_one_per_key {A K} `{EqDecision K} (f : A → K) (k : K)
    (l : list A) :
  NoDup (f <$> l) → length (filter (λ r, f r = k) l) ≤ 1.
Proof.
  induction l as [|x l IH]; simpl; [lia|].
  intros Hnd. apply NoDup_cons in Hnd as [Hx Hnd].
  rewrite filter_cons. case_decide as Hk; [|by apply IH].
  rewrite filter_none; [simpl; lia|].
  intros y Hy Hfy. apply Hx. rewrite Hk, <- Hfy.
  by apply list_elem_of_fmap_2.
Qed.

(** A proposed row never conflicts on the primary key: its [id] is
    drawn fresh. *)
Lemma fresh_id_no_conflict cid uid flag t rows :
  ¬ Exists (conflicts OnPrimaryKey
              (mkTypingStatus (gen_random_uuid (t_id <$> rows))
                              cid uid flag t)) rows.
Proof.
  intros HE. apply Exists_exists in HE as (old & Hold & Hc). simpl in Hc.
  apply (gen_random_uuid_fresh (t_id <$> rows)).
  rewrite <- Hc. by apply list_elem_of_fmap_2.
Qed.

(** Whatever the arbiter, a statement leaves a table that satisfies
    the constraints in that state: the pair stays unique. *)
Lemma typing_insert_on_conflict_constraints target cid uid flag t rows :
  typing_constraints rows →
  typing_constraints
    (fst (typing_insert_on_conflict target cid uid flag t rows)).
Proof.
  intros Hrows. unfold typing_insert_on_conflict. cbv zeta.
  by destruct (decide (typing_constraints _)).
Qed.

Lemma typing_rows_at_most_one cid uid rows :
  typing_constraints rows → length (typing_rows_of cid uid rows) ≤ 1.
Proof. intros [_ Hkeys]. by apply at_most_one_per_key. Qed.

(** The first upsert for a pair inserts its row. *)
Lemma typing_upsert_new_pair cid uid flag t rows :
  typing_constraints rows →
  typing_rows_of cid uid rows = [] →
  fst (typing_insert_on_conflict OnPrimaryKey cid uid flag t rows)
  = rows ++ [mkTypingStatus (gen_random_uuid (t_id <$> rows))
                            cid uid flag t].
Proof.
  intros [Hids Hkeys] Hnone. unfold typing_insert_on_conflict. cbv zeta.
  set (new := mkTypingStatus _ cid uid flag t).
  destruct (decide (Exists (conflicts OnPrimaryKey new) rows)) as [HE|_];
    [by apply fresh_id_no_conflict in HE|].
  rewrite decide_True; [done|]. split; rewrite fmap_app; apply NoDup_app.
  - split; [done|]. split; [|apply NoDup_singleton].
    intros i Hi Hin. apply list_elem_of_singleton in Hin. subst i.
    by apply (gen_random_uuid_fresh (t_id <$> rows)).
  - split; [done|]. split; [|apply NoDup_singleton].
    intros k Hk Hin. apply list_elem_of_singleton in Hin. subst k.
    apply list_elem_of_fmap in Hk as (old & Hkey & Hold).
    eapply (filter_nil_not_elem_of _ _ old Hnone); [|done]. done.
Qed.

(** The client's upsert for a pair that has a row already is rolled
    back: its arbiter is the primary key, the proposed row has a fresh
    [id], and inserting it breaks [UNIQUE(conversation_id, user_id)].
    The stored flag stays what it was. *)
Lemma typing_upsert_existing_pair cid uid flag t rows :
  typing_rows_of cid uid rows ≠ [] →
  typing_insert_on_conflict OnPrimaryKey cid uid flag t rows
  = (rows, Some "23505"%string).
Proof.
  intros Hsome. unfold typing_insert_on_conflict. cbv zeta.
  set (new := mkTypingStatus _ cid uid flag t).
  destruct (decide (Exists (conflicts OnPrimaryKey new) rows)) as [HE|_];
    [by apply fresh_id_no_conflict in HE|].
  rewrite decide_False; [done|]. intros [_ Hkeys].
  rewrite fmap_app in Hkeys. apply NoDup_app in Hkeys as (_ & Hdisj & _).
  destruct (typing_rows_of cid uid rows) as [|old rest] eqn:E; [done|].
  assert (Hold : old ∈ typing_rows_of cid uid rows) by (rewrite E; left).
  apply list_elem_of_filter in Hold as [Hkey Hin].
  apply (Hdisj (cid, uid)).
  - rewrite <- Hkey. by apply list_elem_of_fmap_2.
  - simpl. left.
Qed.

Lemma merge_rows_of_key (new : TypingStatus) rows :
  filter (λ r, typing_key r = typing_key new)
         ((λ old, if decide (conflicts OnConversationUser new old)
                  then merge new old else old) <$> rows)
  = merge new <$> filter (λ r, typing_key r = typing_key new) rows.
Proof.
  simpl conflicts. induction rows as [|old rows IH]; [done|].
  rewrite fmap_cons, !filter_cons.
  destruct (decide (typing_key old = typing_key new)) as [Hk|Hk].
  - rewrite decide_True by done. by rewrite fmap_cons, IH.
  - by rewrite decide_False.
Qed.

(** The arbiter the trigger function names makes the statement an
    update of the row of the pair: afterwards the pair has one row,
    and it carries the flag just written. *)
Lemma on_conflict_pair_sets_flag cid uid flag t rows :
  typing_constraints rows →
  t_is_typing <$> typing_rows_of cid uid
    (fst (typing_insert_on_conflict OnConversationUser cid uid flag t rows))
  = [flag].
Proof.
  intros [Hids Hkeys]. unfold typing_insert_on_conflict. cbv zeta.
  set (new := mkTypingStatus _ cid uid flag t).
  set (f := λ old, if decide (conflicts OnConversationUser new old)
                   then merge new old else old).
  assert (Hid : ∀ old, t_id (f old) = t_id old)
    by (intros old; unfold f; by case_decide).
  assert (Hkey : ∀ old, typing_key (f old) = typing_key old)
    by (intros old; unfold f; case_decide as Hc; [by rewrite Hc|done]).
  destruct (decide (Exists (conflicts OnConversationUser new) rows))
    as [HE|HE].
  - rewrite decide_True; cycle 1.
    { split; rewrite <- list_fmap_compose.
      - by rewrite (list_fmap_ext _ t_id rows) by (intros; apply Hid).
      - by rewrite (list_fmap_ext _ typing_key rows) by (intros; apply Hkey). }
    simpl. unfold typing_rows_of.
    assert (Hone : length (filter (λ r, typing_key r = (cid, uid)) rows) = 1).
    { pose proof (at_most_one_per_key typing_key (cid, uid) rows Hkeys).
      apply Exists_exists in HE as (old & Hold & Hc). simpl in Hc.
      assert (old ∈ filter (λ r, typing_key r = (cid, uid)) rows)
        by (by apply list_elem_of_filter).
      destruct (filter _ rows); [by apply elem_of_nil in H0 | simpl in *; lia]. }
    assert (Hmap : filter (λ r, typing_key r = (cid, uid)) (f <$> rows)
                   = merge new <$> filter (λ r, typing_key r = (cid, uid)) rows).
    { exact (merge_rows_of_key new rows). }
    rewrite Hmap.
    destruct (filter _ rows) as [|old [|]]; simpl in *; done || lia.
  - rewrite decide_True; cycle 1.
    { assert (Hfresh := gen_random_uuid_fresh (t_id <$> rows)).
      split; rewrite fmap_app; apply NoDup_app.
      - split; [done|]. split; [|apply NoDup_singleton].
        intros i Hi Hin. apply list_elem_of_singleton in Hin. by subst i.
      - split; [done|]. split; [|apply NoDup_singleton].
        intros k Hk Hin. apply list_elem_of_singleton in Hin. subst k.
        apply list_elem_of_fmap in Hk as (old & Hk & Hold).
        apply HE, Exists_exists. exists old. by split. }
    simpl. unfold typing_rows_of. rewrite filter_app, filter_cons.
    rewrite decide_True by done. rewrite filter_none; [done|].
    intros old Hold Hk. apply HE, Exists_exists. exists old. by split.
Qed.

Lemma upserts_constraints target cid uid writes rows :
  typing_constraints rows →
  typing_constraints (upserts target cid uid writes rows).
Proof.
  revert rows. induction writes as [|w writes IH]; intros rows Hc; [done|].
  apply IH. by apply typing_insert_on_conflict_constraints.
Qed.

(** With the pair as arbiter the row carries the most recent flag. *)
Lemma upserts_on_pair_latest cid uid writes flag t rows :
  typing_constraints rows →
  t_is_typing <$> typing_rows_of cid uid
    (upserts OnConversationUser cid uid (writes ++ [(flag, t)]) rows)
  = [flag].
Proof.
  intros Hc. unfold upserts. rewrite foldl_snoc.
  apply on_conflict_pair_sets_flag.
  by apply (upserts_constraints OnConversationUser cid uid writes).
Qed.

(** With the client's arbiter the row keeps the flag of the first
    upsert, whatever is upserted afterwards. *)
Lemma upserts_on_primary_key_first cid uid flag t writes rows :
  typing_constraints rows →
  typing_rows_of cid uid rows = [] →
  t_is_typing <$> typing_rows_of cid uid
    (upserts OnPrimaryKey cid uid ((flag, t) :: writes) rows)
  = [flag].
Proof.
  intros Hc Hnone. unfold upserts. simpl.
  rewrite typing_upsert_new_pair by done.
  set (first := mkTypingStatus _ cid uid flag t).
  assert (Hrow : typing_rows_of cid uid (rows ++ [first]) = [first]).
  { unfold typing_rows_of in *. rewrite filter_app, Hnone, filter_cons.
    by rewrite decide_True. }
  assert (Hstay : foldl (λ r w, fst (typing_insert_on_conflict OnPrimaryKey
                                       cid uid w.1 w.2 r))
                        (rows ++ [first]) writes = rows ++ [first]).
  { induction writes as [|w writes IH]; [done|]. simpl.
    rewrite typing_upsert_existing_pair by (by rewrite Hrow). exact IH. }
  by rewrite Hstay, Hrow.
Qed.

End TypingTable.

(** C9 asks that the row of a (conversation, participant) pair carry the
    flag of the most recent upsert.  The pair never has more than one
    row, but the client's second upsert is lost: user 7 types "H" (flag
    true), then clears the input (flag false); both upserts are sent, and
    the stored row still says true. *)
Theorem typing_flag_second_upsert_lost :
  let opened := run setupChat (start false (empty_tables (Some 7)) 100) in
  let typed := run (onChange (lit "H")) opened in
  let cleared := run (onChange []) (at_time 500 typed) in
  trace cleared
    = trace opened ++ [chat_typing_status_upsert 1 7 true 100;
                       chat_typing_status_upsert 1 7 false 500] ∧
  chat_typing_status (db typed) = [mkTypingStatus 1 1 7 true 100] ∧
  chat_typing_status (db cleared) = [mkTypingStatus 1 1 7 true 100].
Proof. vm_compute. repeat split. Qed.

(** ** The profile form *)

Section ProfileRules.

Import ProfileForm.

Implicit Types (p : UserProfile) (today : Date) (env : Env) (s : State).

Lemma too_short_length (text : option jsstring) (n : nat) :
  text_length text < n → too_short text n = true.
Proof.
  destruct text as [v|]; simpl; [|done]. intros Hlen.
  rewrite (bool_decide_true (length v < n)) by done. apply orb_true_r.
Qed.

Lemma not_positive_rejected (x : number) :
  gt_zero x = false → falsy_number x || le_zero x = true.
Proof.
  destruct x as [| | |q]; simpl; try done.
  intros H. apply negb_false_iff in H as ->. apply orb_true_r.
Qed.

(** The rules as [validateProfile] applies them; its age is the
    difference of the calendar years, the year of birth being read in
    local time. *)
Lemma validateProfile_rejects env p :
  text_length (full_name p) < 2 ∨
  text_length (phone p) < 10 ∨
  text_length (address p) < 5 ∨
  (∃ written, date_of_birth p = ValidDate written ∧
              (age (today env)
                   (new_Date (timezoneOffset env written) written) < 18)%Z) ∨
  gt_zero (monthly_income p) = false →
  validateProfile env p = false.
Proof.
  unfold validateProfile, validationErrors.
  intros [H|[H|[H|[(b & Hb & H)|H]]]].
  - rewrite (too_short_length _ _ H). done.
  - rewrite (too_short_length _ _ H). by destruct (too_short (full_name p) 2).
  - rewrite (too_short_length _ _ H).
    by destruct (too_short (full_name p) 2), (too_short (phone p) 10).
  - rewrite Hb. cbv zeta. apply Z.ltb_lt in H. rewrite H.
    by destruct (too_short (full_name p) 2), (too_short (phone p) 10),
                (too_short (address p) 5).
  - rewrite (not_positive_rejected _ H).
    by destruct (too_short (full_name p) 2), (too_short (phone p) 10),
                (too_short (address p) 5), (date_of_birth p) as [| |b];
      try (cbv zeta; destruct (age _ _ <? 18)%Z).
Qed.

(** A rejected submission raises the one toast and sends nothing. *)
Lemma handleSubmit_invalid env s :
  validateProfile env (profile s) = false →
  snd (handleSubmit env s)
    = [toast_error "Please fix the errors in the form"] ∧
  profile (fst (handleSubmit env s)) = profile s.
Proof. intros H. unfold handleSubmit. cbv zeta. by rewrite H. Qed.

(** An accepted one reaches the store when the browser is on line and
    a user is signed in, whatever the store answers. *)
Lemma handleSubmit_valid_upserts env s uid :
  validateProfile env (profile s) = true →
  onLine env = true →
  user env = Some uid →
  existsb is_upsert (snd (handleSubmit env s)) = true.
Proof.
  intros Hv Ho Hu. unfold handleSubmit. cbv zeta. rewrite Hv, Ho, Hu. simpl.
  destruct (upsert_error env) as [error|]; [|by destruct (fetchProfile _ _)].
  by repeat case_bool_decide.
Qed.

(** The year of a date of birth, as the form reads it. *)
Lemma new_Date_year (offset : Z) (written : Date) :
  year (new_Date offset written)
  = if decide (0 < offset ∧ month written = 1 ∧ day written = 1)%Z
    then (year written - 1)%Z else year written.
Proof.
  unfold new_Date, previous_day.
  destruct (0 <? offset)%Z eqn:Ho.
  - apply Z.ltb_lt in Ho.
    destruct (day written =? 1)%Z eqn:Hd;
      [destruct (month written =? 1)%Z eqn:Hm|]; simpl.
    + apply Z.eqb_eq in Hd, Hm. by rewrite decide_True.
    + apply Z.eqb_neq in Hm. rewrite decide_False; [done|]. tauto.
    + apply Z.eqb_neq in Hd. rewrite decide_False; [done|]. tauto.
  - apply Z.ltb_ge in Ho. rewrite decide_False; [done|]. lia.
Qed.

End ProfileRules.

(** C4 asks that a profile whose date of birth gives an age under 18 be
    rejected without any write to the store.  The form compares calendar
    years only: on 2 November 2026 an applicant born on 31 December 2008
    is 17, the form takes the age for 18 in every time zone, validation
    passes and the upsert is sent, whatever the store then answers. *)
Theorem handleSubmit_accepts_seventeen_year_old :
  let birth := mkDate 2008 12 31 in
  let today := mkDate 2026 11 2 in
  let p := mkProfile 7 (Some (lit "Amina Otieno")) (Some (lit "12 Moi Avenue"))
                     (Some (lit "+254700111222")) (ValidDate birth)
                     (lit "employed") (Finite (85000 # 1)) false in
  let s := ProfileForm.mkState false false
             (ProfileForm.mkErrors None None None None None) p in
  ProfileForm.completed_years today birth = 17%Z ∧
  ∀ (zone : Date → Z) (answer : option ProfileForm.StoreError),
    let env := ProfileForm.mkEnv true (Some 7) today zone 1000 answer
                                 None None in
    ProfileForm.age today (new_Date (zone birth) birth) = 18%Z ∧
    ProfileForm.validateProfile env p = true ∧
    existsb ProfileForm.is_upsert (snd (ProfileForm.handleSubmit env s))
    = true.
Proof.
  intros birth today p s. split; [done|]. intros zone answer env.
  assert (Hage : ProfileForm.age today (new_Date (zone birth) birth) = 18%Z).
  { unfold ProfileForm.age, getFullYear. rewrite new_Date_year.
    by rewrite decide_False by (intros (_ & ? & _); done). }
  assert (Hvalid : ProfileForm.validateProfile env p = true).
  { unfold ProfileForm.validateProfile, ProfileForm.validationErrors.
    simpl. fold birth today. by rewrite Hage. }
  split; [exact Hage|]. split; [exact Hvalid|].
  by apply (handleSubmit_valid_upserts _ _ 7).
Qed.

(** ** Sending a message *)

Section Sending.

Implicit Types (w : Sys) (cid uid : Id) (random : jsstring)
  (getPublicUrl : jsstring → jsstring).

(** A text-only send, in terms of the insert statement it runs. *)
Lemma handleSubmit_text_only random getPublicUrl w uid :
  userId (ui w) = Some uid →
  selectedFile (ui w) = None →
  truthy (trim (newMessage (ui w))) = true →
  let body := trim (newMessage (ui w)) in
  let r := messages_insert (conversationId (ui w)) uid body (isAdmin (ui w))
             None None (clock w) (db w) in
  let request := chat_messages_insert (conversationId (ui w)) uid body
                   (isAdmin (ui w)) None None in
  run (handleSubmit random getPublicUrl) w
  = match r.2 with
    | Some _ =>
        mkSys (ui w) r.1 (clock w)
              (trace w ++ [request; console_error "Error sending message:";
                           toast_error "Failed to send message"])
              (loop w)
    | None =>
        mkSys (mkState (isAdmin (ui w)) (messages (ui w)) []
                 (loading (ui w)) (conversationId (ui w)) (userId (ui w))
                 (profile (ui w)) (typingStatus (ui w)) None 0
                 (typingTimeoutRef (ui w)))
              r.1 (clock w) (trace w ++ [request]) (loop w)
    end.
Proof.
  intros Hu Hf Ht. unfold run, handleSubmit, mbind, M_bind, get. simpl.
  rewrite Hu, Hf, Ht. simpl.
  destruct (messages_insert _ _ _ _ _ _ _ _) as [d' [e|]]; simpl.
  - by rewrite <- !app_assoc.
  - by rewrite Hu.
Qed.

(** A send whose text is not blank, from a session that knows its user
    and whose conversation exists, with no file staged: one row is added
    to [chat_messages], carrying the trimmed text, the session's role
    flag, no attachment and no read time; the compose state is cleared. *)
Theorem handleSubmit_sends_one_message random getPublicUrl w cid uid :
  userId (ui w) = Some uid →
  conversationId (ui w) = Some cid →
  cid ∈ c_id <$> chat_conversations (db w) →
  selectedFile (ui w) = None →
  truthy (trim (newMessage (ui w))) = true →
  let w' := run (handleSubmit random getPublicUrl) w in
  let body := trim (newMessage (ui w)) in
  chat_messages (db w')
    = chat_messages (db w)
      ++ [mkMessage (gen_random_uuid (m_id <$> chat_messages (db w)))
                    cid uid body (isAdmin (ui w)) (clock w)
                    None None None false] ∧
  trace w' = trace w ++ [chat_messages_insert (Some cid) uid body
                           (isAdmin (ui w)) None None] ∧
  newMessage (ui w') = [] ∧
  selectedFile (ui w') = None ∧
  uploadProgress (ui w') = 0.
Proof.
  intros Hu Hc Hin Hf Ht.
  pose proof (handleSubmit_text_only random getPublicUrl w uid Hu Hf Ht) as H.
  cbv zeta in *. rewrite H, Hc. unfold messages_insert.
  by rewrite decide_True.
Qed.

(** The store refuses the insert when the session has no conversation,
    or one that does not exist: nothing is stored, the error toast is
    raised, and the draft and the rest of the session state stay as they
    were. *)
Theorem handleSubmit_refused_keeps_draft random getPublicUrl w uid :
  userId (ui w) = Some uid →
  selectedFile (ui w) = None →
  truthy (trim (newMessage (ui w))) = true →
  (∀ cid, conversationId (ui w) = Some cid →
          cid ∉ c_id <$> chat_conversations (db w)) →
  let w' := run (handleSubmit random getPublicUrl) w in
  db w' = db w ∧
  ui w' = ui w ∧
  trace w' = trace w ++ [chat_messages_insert (conversationId (ui w)) uid
                           (trim (newMessage (ui w))) (isAdmin (ui w))
                           None None;
                         console_error "Error sending message:";
                         toast_error "Failed to send message"].
Proof.
  intros Hu Hf Ht Hno.
  pose proof (handleSubmit_text_only random getPublicUrl w uid Hu Hf Ht) as H.
  cbv zeta in *. rewrite H. unfold messages_insert.
  destruct (conversationId (ui w)) as [cid|]; [|done].
  by rewrite decide_False by (by apply Hno).
Qed.

Lemma setupChat_admin_state (d : Tables) uid (t : Time) :
  session d = Some uid →
  run setupChat (start true d t)
  = mkSys (mkState true [] [] false None (Some uid)
                   (Db.profiles_select uid d) [] None 0 None)
          d t [auth_getUser; profiles_select uid] idle.
Proof.
  intros Hs. unfold run, setupChat, start, mbind, M_bind, query. simpl.
  by rewrite Hs.
Qed.

(** A support session cannot send.  [setupChat] resolves no conversation
    when [isAdmin], so whatever text the agent types, the insert carries
    a null [conversation_id] and is refused: the store stays as it was
    before the session, the agent gets "Failed to send message", and the
    text stays in the input. *)
Theorem support_session_cannot_send (d : Tables) uid (t t' : Time)
    (value random : jsstring) (getPublicUrl : jsstring → jsstring) :
  session d = Some uid →
  truthy (trim value) = true →
  let typed := run (setupChat;; onChange value) (start true d t) in
  let w' := run (handleSubmit random getPublicUrl) (at_time t' typed) in
  db w' = d ∧
  newMessage (ui w') = value ∧
  trace w' = [auth_getUser; profiles_select uid;
              chat_messages_insert None uid (trim value) true None None;
              console_error "Error sending message:";
              toast_error "Failed to send message"].
Proof.
  intros Hs Ht typed w'.
  assert (Htyped : typed
    = mkSys (mkState true [] value false None (Some uid)
                     (Db.profiles_select uid d) [] None 0 None)
            d t [auth_getUser; profiles_select uid] idle).
  { subst typed.
    change (run (setupChat;; onChange value) (start true d t))
      with (run (onChange value) (run setupChat (start true d t))).
    by rewrite (setupChat_admin_state d uid t Hs). }
  subst w'. rewrite Htyped.
  by rewrite (handleSubmit_text_only random getPublicUrl _ uid).
Qed.

End Sending.

Lemma handleSubmit_sends_one_message_witness :
  let w := run (setupChat;; onChange (lit " Hello "))
               (start false (empty_tables (Some 7)) 100) in
  chat_messages (db (run (handleSubmit (lit "k3x") id) w))
    = [mkMessage 1 1 7 (lit "Hello") false 100 None None None false].
Proof.
  intros w.
  destruct (handleSubmit_sends_one_message (lit "k3x") id w 1 7)
    as (Hrows & _); try done.
  vm_compute. repeat constructor.
Defined.

Lemma handleSubmit_refused_keeps_draft_witness :
  let w := mkSys (mkState false [] (lit "Hi") false (Some 4) (Some 7) None
                          [] None 0 None)
                 (empty_tables (Some 7)) 100 [] idle in
  newMessage (ui (run (handleSubmit (lit "k3x") id) w)) = lit "Hi" ∧
  chat_messages (db (run (handleSubmit (lit "k3x") id) w)) = [].
Proof.
  intros w.
  destruct (handleSubmit_refused_keeps_draft (lit "k3x") id w 7)
    as (Hdb & Hui & _);
    [done | done | done | intros cid _; apply not_elem_of_nil |].
  by rewrite Hdb, Hui.
Defined.

Lemma support_session_cannot_send_witness :
  let d := empty_tables (Some 2) in
  let typed := run (setupChat;; onChange (lit "On it")) (start true d 100) in
  db (run (handleSubmit (lit "k3x") id) (at_time 200 typed)) = d.
Proof.
  intros d typed.
  by destruct (support_session_cannot_send d 2 100 200 (lit "On it")
                 (lit "k3x") id) as (Hdb & _).
Defined.

(** ** Sending an attachment *)

Section Attachments.

Implicit Types (w : Sys) (cid uid : Id) (random : jsstring) (f : File)
  (getPublicUrl : jsstring → jsstring).

Let send_failed : list ChatSupport.Effect :=
  [console_error "Error sending message:";
   toast_error "Failed to send message"].

(** A send with a staged file, in terms of the upload and the insert. *)
Lemma handleSubmit_with_file random getPublicUrl w uid f :
  userId (ui w) = Some uid →
  selectedFile (ui w) = Some f →
  let path := upload_path uid random f in
  let body := trim (newMessage (ui w)) in
  let url := or_null (getPublicUrl path) in
  let ty := or_null (f_type f) in
  let stored := with_objects (objects (db w) ++ [(path, f)]) (db w) in
  let r := messages_insert (conversationId (ui w)) uid body (isAdmin (ui w))
             url ty (clock w) stored in
  let request := chat_messages_insert (conversationId (ui w)) uid body
                   (isAdmin (ui w)) url ty in
  run (handleSubmit random getPublicUrl) w
  = if decide (path ∈ (objects (db w)).*1)
    then mkSys (ui w) (db w) (clock w)
               (trace w ++ ChatSupport.storage_upload path f
                  :: console_error "Error uploading file:" :: send_failed)
               (loop w)
    else match r.2 with
         | Some _ =>
             mkSys (ui w) r.1 (clock w)
                   (trace w ++ ChatSupport.storage_upload path f
                      :: request :: send_failed)
                   (loop w)
         | None =>
             mkSys (cleared (ui w)) r.1 (clock w)
                   (trace w ++ [ChatSupport.storage_upload path f; request])
                   (loop w)
         end.
Proof.
  intros Hu Hf. unfold run, handleSubmit, mbind, M_bind, get. simpl.
  rewrite Hu, Hf, andb_false_r. simpl.
  unfold uploadFile, mbind, M_bind, get, exec, emit. simpl. rewrite Hu. simpl.
  unfold Db.storage_upload, upload_path. simpl.
  destruct (decide (_ ∈ (objects (db w)).*1)) as [Hin|Hout]; simpl.
  - by rewrite <- !app_assoc.
  - destruct (messages_insert _ _ _ _ _ _ _ _) as [d' [e|]]; simpl.
    + by rewrite <- !app_assoc.
    + unfold cleared. simpl. by rewrite <- !app_assoc.
Qed.

(** An upload that the bucket refuses (the path is taken) ends the send:
    no insert is requested, nothing is stored, and the draft, staged file
    included, is kept. *)
Theorem upload_refused_sends_no_message random getPublicUrl w uid f :
  userId (ui w) = Some uid →
  selectedFile (ui w) = Some f →
  upload_path uid random f ∈ (objects (db w)).*1 →
  let w' := run (handleSubmit random getPublicUrl) w in
  db w' = db w ∧
  ui w' = ui w ∧
  trace w' = trace w
    ++ [ChatSupport.storage_upload (upload_path uid random f) f;
        console_error "Error uploading file:";
        console_error "Error sending message:";
        toast_error "Failed to send message"].
Proof.
  intros Hu Hf Hin.
  pose proof (handleSubmit_with_file random getPublicUrl w uid f Hu Hf) as H.
  cbv zeta in *. rewrite H. by rewrite decide_True.
Qed.

(** The send is not transactional: when the upload succeeds and the
    insert is then refused (no conversation, or one that does not
    exist), the object stays in the bucket with no message row pointing
    to it; the draft and the staged file are kept. *)
Theorem refused_insert_leaves_uploaded_object random getPublicUrl w uid f :
  userId (ui w) = Some uid →
  selectedFile (ui w) = Some f →
  upload_path uid random f ∉ (objects (db w)).*1 →
  (∀ cid, conversationId (ui w) = Some cid →
          cid ∉ c_id <$> chat_conversations (db w)) →
  let w' := run (handleSubmit random getPublicUrl) w in
  objects (db w') = objects (db w) ++ [(upload_path uid random f, f)] ∧
  chat_messages (db w') = chat_messages (db w) ∧
  ui w' = ui w ∧
  last (trace w') = Some (toast_error "Failed to send message").
Proof.
  intros Hu Hf Hout Hno.
  pose proof (handleSubmit_with_file random getPublicUrl w uid f Hu Hf) as H.
  cbv zeta in *. rewrite H. rewrite decide_False by done.
  unfold messages_insert.
  destruct (conversationId (ui w)) as [cid|] eqn:Hc; simpl.
  - rewrite decide_False by (by apply Hno). simpl.
    repeat split. by rewrite last_app.
  - repeat split. by rewrite last_app.
Qed.

(** A send with a staged file whose upload and insert both succeed
    stores the object under the user's folder and one row carrying the
    URL that the storage client gives for the object's path and the
    file's content type (each null when empty); the text may be blank,
    in which case the row's body is the empty string. *)
Theorem handleSubmit_sends_attachment random getPublicUrl w cid uid f :
  userId (ui w) = Some uid →
  conversationId (ui w) = Some cid →
  cid ∈ c_id <$> chat_conversations (db w) →
  selectedFile (ui w) = Some f →
  upload_path uid random f ∉ (objects (db w)).*1 →
  let w' := run (handleSubmit random getPublicUrl) w in
  let path := upload_path uid random f in
  objects (db w') = objects (db w) ++ [(path, f)] ∧
  chat_messages (db w')
    = chat_messages (db w)
      ++ [mkMessage (gen_random_uuid (m_id <$> chat_messages (db w)))
                    cid uid (trim (newMessage (ui w))) (isAdmin (ui w))
                    (clock w) (or_null (getPublicUrl path))
                    (or_null (f_type f)) None false] ∧
  ui w' = cleared (ui w).
Proof.
  intros Hu Hc Hin Hf Hout.
  pose proof (handleSubmit_with_file random getPublicUrl w uid f Hu Hf) as H.
  cbv zeta in *. rewrite H. rewrite decide_False by done.
  rewrite Hc. unfold messages_insert. simpl.
  by rewrite decide_True.
Qed.

End Attachments.

Lemma upload_refused_sends_no_message_witness :
  let f := mkFile (lit "scan.pdf") 2048 (lit "application/pdf") in
  let d := mkTables (Some 7) [] [mkConversation 1 7 "active" 0 0] [] []
                    [(lit "7/k3x.pdf", f)] in
  let w := mkSys (mkState false [] (lit "see file") false (Some 1) (Some 7)
                          None [] (Some f) 0 None) d 100 [] idle in
  db (run (handleSubmit (lit "k3x") id) w) = d ∧
  selectedFile (ui (run (handleSubmit (lit "k3x") id) w)) = Some f.
Proof.
  intros f d w.
  destruct (upload_refused_sends_no_message (lit "k3x") id w 7 f)
    as (Hdb & Hui & _); [done | done | |].
  - vm_compute. left.
  - by rewrite Hdb, Hui.
Defined.

Lemma refused_insert_leaves_uploaded_object_witness :
  let f := mkFile (lit "scan.pdf") 2048 (lit "application/pdf") in
  let w := mkSys (mkState true [] (lit "see file") false None (Some 2)
                          None [] (Some f) 0 None)
                 (empty_tables (Some 2)) 100 [] idle in
  objects (db (run (handleSubmit (lit "k3x") id) w)) = [(lit "2/k3x.pdf", f)] ∧
  chat_messages (db (run (handleSubmit (lit "k3x") id) w)) = [].
Proof.
  intros f w.
  destruct (refused_insert_leaves_uploaded_object (lit "k3x") id w 2 f)
    as (Hobj & Hmsg & _); [done | done | | |].
  - simpl. apply not_elem_of_nil.
  - intros cid Hcid. discriminate.
  - by rewrite Hobj, Hmsg.
Defined.

Lemma handleSubmit_sends_attachment_witness :
  let f := mkFile (lit "id.front.png") 2048 (lit "image/png") in
  let d := mkTables (Some 7) [] [mkConversation 1 7 "active" 0 0] [] [] [] in
  let w := mkSys (mkState false [] (lit "  ") false (Some 1) (Some 7)
                          None [] (Some f) 0 None) d 100 [] idle in
  let getPublicUrl path :=
    lit "https://your-project-url.supabase.co/storage/v1/object/public/"
    ++ lit "profile-documents/" ++ path in
  chat_messages (db (run (handleSubmit (lit "k3x") getPublicUrl) w))
    = [mkMessage 1 1 7 [] false 100
         (Some (lit ("https://your-project-url.supabase.co/storage/v1/"
                     +:+ "object/public/profile-documents/7/k3x.png")))
         (Some (lit "image/png")) None false].
Proof.
  intros f d w getPublicUrl.
  destruct (handleSubmit_sends_attachment (lit "k3x") getPublicUrl w 1 7 f)
    as (_ & Hmsg & _); [done | done | | done | |].
  - vm_compute. left.
  - simpl. apply not_elem_of_nil.
  - by rewrite Hmsg.
Defined.

(** ** What the chat view shows *)

Section View.

Implicit Types (w : Sys) (s : State) (ns : list TypingStatus).

Lemma render_chat_fields s (a b : bool) :
  render s = Chat a b → a = someoneIsTyping s ∧ b = sendDisabled s.
Proof.
  unfold render, someoneIsTyping, sendDisabled.
  destruct (negb (truthy_opt _) && negb (isAdmin s)); [done|].
  destruct (loading s); [done|]. by intros [= <- <-].
Qed.

(** The send button and the guard of [handleSubmit] agree: in a session
    that knows its user, submitting changes nothing exactly when the
    rendered button is disabled; when it is enabled, a request goes out. *)
Theorem send_button_matches_guard (random : jsstring)
    (getPublicUrl : jsstring → jsstring) w (uid : Id) (a b : bool) :
  render (ui w) = Chat a b →
  userId (ui w) = Some uid →
  (b = true ↔ run (handleSubmit random getPublicUrl) w = w) ∧
  (b = false → ∃ request more,
     is_request request = true ∧
     trace (run (handleSubmit random getPublicUrl) w) = trace w ++ request :: more).
Proof.
  intros Hr Hu. apply render_chat_fields in Hr as [_ ->].
  unfold sendDisabled.
  assert (Hrequest : negb (truthy (trim (newMessage (ui w))))
                     && bool_decide (selectedFile (ui w) = None) = false →
    ∃ request more, is_request request = true ∧
      trace (run (handleSubmit random getPublicUrl) w) = trace w ++ request :: more).
  { intros Hb. destruct (selectedFile (ui w)) as [f|] eqn:Hf.
    - rewrite (handleSubmit_with_file random getPublicUrl w uid f Hu Hf).
      destruct (decide _);
        [eexists _, _; split; [|simpl; reflexivity]; done|].
      destruct (messages_insert _ _ _ _ _ _ _ _).2;
        eexists _, _; (split; [|simpl; reflexivity]); done.
    - rewrite andb_true_r in Hb. apply negb_false_iff in Hb.
      rewrite (handleSubmit_text_only random getPublicUrl w uid Hu Hf Hb).
      destruct (messages_insert _ _ _ _ _ _ _ _).2;
        eexists _, _; (split; [|simpl; reflexivity]); done. }
  split; [|exact Hrequest].
  destruct (negb _ && _) eqn:Hb.
  - split; [intros _|done].
    unfold run, handleSubmit, mbind, M_bind, get. simpl. by rewrite Hb.
  - split; [done|]. intros Hsame.
    destruct (Hrequest eq_refl) as (request & more & _ & Htr).
    rewrite Hsame in Htr. apply (f_equal length) in Htr.
    rewrite length_app in Htr. simpl in Htr. lia.
Qed.

Lemma feed_userId ns w :
  userId (ui (run (forEach ns onTypingStatusChange) w)) = userId (ui w).
Proof.
  revert w. induction ns as [|n ns IH]; intros w; [done|].
  change (run (forEach (n :: ns) onTypingStatusChange) w)
    with (run (forEach ns onTypingStatusChange)
              (run (onTypingStatusChange n) w)).
  by rewrite IH.
Qed.

Lemma latest_for_user (uid : Id) ns (n : TypingStatus) :
  latest_for uid ns = Some n → t_user_id n = uid.
Proof.
  unfold latest_for. intros Hl. apply last_Some_elem_of in Hl.
  by apply list_elem_of_filter in Hl as [? _].
Qed.

(** "Someone is typing..." is shown, after any notifications delivered
    to a freshly opened session, exactly when the most recent
    notification about some participant other than the viewer has the
    flag set; the viewer's own flag never lights it. *)
Theorem typing_indicator_shows_others ns w :
  typingStatus (ui w) = [] →
  let w' := run (forEach ns onTypingStatusChange) w in
  someoneIsTyping (ui w') = true
  ↔ ∃ n, latest_for (t_user_id n) ns = Some n ∧
         t_is_typing n = true ∧
         Some (t_user_id n) ≠ userId (ui w).
Proof.
  intros Hempty w'. unfold someoneIsTyping. subst w'.
  rewrite feed_userId, feed_typingStatus, Hempty.
  destruct (foldl_replace_entry ns []) as [_ Hentries].
  rewrite bool_decide_eq_true, Exists_exists. split.
  - intros (st & Hin & Htyping & Hother). exists st.
    split; [|done].
    specialize (Hentries (t_user_id st)).
    assert (Hst : st ∈ filter (λ e, t_user_id e = t_user_id st)
                          (foldl (λ cur n, filter (λ status,
                             t_user_id status ≠ t_user_id n) cur ++ [n])
                             [] ns))
      by (by apply list_elem_of_filter).
    rewrite Hentries in Hst.
    destruct (latest_for (t_user_id st) ns) as [n|].
    + apply list_elem_of_singleton in Hst. by subst.
    + by apply elem_of_nil in Hst.
  - intros (n & Hlatest & Htyping & Hother). exists n.
    split; [|done].
    specialize (Hentries (t_user_id n)). rewrite Hlatest in Hentries.
    assert (Hn : n ∈ [n]) by left. rewrite <- Hentries in Hn.
    by apply list_elem_of_filter in Hn as [_ ?].
Qed.

(** Insert notifications are appended in arrival order, none is
    dropped or merged, and each one triggers one mark-read request. *)
Theorem onMessageInsert_appends (ms : list Message) w :
  let w' := run (forEach ms onMessageInsert) w in
  messages (ui w') = messages (ui w) ++ ms ∧
  trace w' = trace w
    ++ ((λ m, chat_messages_update (m_id m) (clock w)) <$> ms) ∧
  clock w' = clock w.
Proof.
  revert w. induction ms as [|m ms IH]; intros w.
  - simpl. by rewrite !app_nil_r.
  - change (run (forEach (m :: ms) onMessageInsert) w)
      with (run (forEach ms onMessageInsert) (run (onMessageInsert m) w)).
    destruct (IH (run (onMessageInsert m) w)) as (Hm & Ht & Hc).
    cbv zeta. rewrite Hm, Ht, Hc. simpl.
    by rewrite <- !app_assoc.
Qed.

End View.

Lemma send_button_matches_guard_witness :
  let w := mkSys (mkState false [] (lit "Hi") false (Some 1) (Some 7)
                   (Some (mkProfile 7 (Some (lit "Amina")) None None NoDate
                            [] NaN false))
                   [] None 0 None)
                 (empty_tables (Some 7)) 100 [] idle in
  run (handleSubmit (lit "k3x") id) w ≠ w.
Proof.
  intros w.
  destruct (send_button_matches_guard (lit "k3x") id w 7 false false)
    as [[_ Hsame] _]; [done | done |].
  intros Heq. by specialize (Hsame Heq).
Defined.

Lemma typing_indicator_shows_others_witness :
  let ns := [mkTypingStatus 2 1 9 false 10; mkTypingStatus 1 1 7 true 20;
             mkTypingStatus 2 1 9 true 30] in
  let w := run setupChat (start false (empty_tables (Some 7)) 0) in
  someoneIsTyping (ui (run (forEach ns onTypingStatusChange) w)) = true.
Proof.
  intros ns w.
  destruct (typing_indicator_shows_others ns w) as [_ Hshown]; [done|].
  apply Hshown. exists (mkTypingStatus 2 1 9 true 30).
  split; [done|]. split; [done|]. simpl. congruence.
Defined.

(** ** Bursts of typing *)

Section Debounce.

Implicit Types (w : Sys) (cid uid : Id) (k : Keystroke)
  (ks : list Keystroke) (timeout : Timeout).

(** A keystroke in a session at rest, answered before anything else
    happens and followed by less than three seconds of pause: the one
    upsert, and the session is at rest again with its timeout pending. *)
Lemma keystroke_settled w cid uid k :
  conversationId (ui w) = Some cid →
  userId (ui w) = Some uid →
  settled w →
  typed k ≠ [] →
  pause k < 3000 →
  let w' := run (keystroke k) w in
  trace w' = trace w ++ [chat_typing_status_upsert cid uid true (clock w)] ∧
  (∃ timeout, timers (loop w') = [timeout] ∧ clock w' < due timeout) ∧
  settled w' ∧
  clock w' = clock w + latency k + pause k ∧
  conversationId (ui w') = Some cid ∧
  userId (ui w') = Some uid.
Proof.
  intros Hc Hu Hrest Hne Hpause. unfold keystroke, onChange.
  rewrite (bool_decide_true (0 < length (typed k)))
    by (destruct (typed k); [done | simpl; lia]).
  rewrite !run_seq.
  destruct (updateTypingStatus_settled true
              (run (setNewMessage (typed k)) w) cid uid (latency k)
              Hc Hu Hrest)
    as (Ht & _ & Ht' & Htm & _ & Hs & Hclock & Hc' & Hu' & _).
  rewrite run_seq in Ht', Htm, Hs, Hclock, Hc', Hu'.
  cbv zeta in *.
  set (answered := run (resume 0) _) in *.
  rewrite (elapse_not_due answered _ (pause k) Htm)
    by (rewrite Hclock; simpl; lia).
  simpl. rewrite Ht', Ht, Htm, Hclock. simpl.
  split; [done|]. split; [eexists; split; [done|simpl; lia]|].
  split; [exact Hs|]. done.
Qed.


End Debounce.


(** ** What opening the chat leaves alone *)

(** [setupChat] writes to [chat_conversations] only, and only by adding
    at most one row at the end: the rows that were there, the profiles,
    the messages, the typing rows and the stored objects are as before,
    for end-user and support sessions alike, signed in or not. *)
Theorem setupChat_frame (admin : bool) (d : Tables) (t : Time) :
  let d' := db (run setupChat (start admin d t)) in
  session d' = session d ∧
  profiles d' = profiles d ∧
  chat_messages d' = chat_messages d ∧
  chat_typing_status d' = chat_typing_status d ∧
  objects d' = objects d ∧
  ∃ new, chat_conversations d' = chat_conversations d ++ new ∧
         length new ≤ 1.
Proof.
  unfold run, setupChat, start, mbind, M_bind, query, exec. simpl.
  destruct (session d) as [uid|] eqn:Hs; simpl.
  - destruct admin; simpl.
    + repeat split; try done. exists []. split; [by rewrite app_nil_r | simpl; lia].
    + destruct (conversations_select_active uid d) as [conv|]; simpl.
      * repeat split; try done. exists []. split; [by rewrite app_nil_r | simpl; lia].
      * unfold conversations_insert. rewrite Hs, decide_True by done. simpl.
        repeat split; try done. eexists [_]. split; [done | simpl; lia].
  - repeat split; try done. exists []. split; [by rewrite app_nil_r | simpl; lia].
Qed.

(** ** Fetching the history *)

Section History.

Implicit Types (w : Sys) (m : Message) (l acc : list Message) (cid : Id).

Lemma insert_by_created_at_perm m l : insert_by_created_at m l ≡ₚ m :: l.
Proof.
  induction l as [|x l IH]; simpl; [done|].
  case_decide; [done|]. rewrite IH. apply Permutation_swap.
Qed.

Lemma insert_by_created_at_sorted m l :
  StronglySorted older l → StronglySorted older (insert_by_created_at m l).
Proof.
  induction l as [|x l IH]; intros Hs; simpl.
  - by repeat constructor.
  - apply StronglySorted_inv in Hs as [Hl Hx]. case_decide as Hlt.
    + constructor; [by constructor|]. constructor; [unfold older; lia|].
      eapply Forall_impl; [exact Hx|]. unfold older. intros y Hy. simpl in *. lia.
    + constructor; [by apply IH|].
      rewrite insert_by_created_at_perm. constructor; [unfold older; lia|done].
Qed.

Lemma order_by_created_at_acc l acc :
  foldl (λ acc m, insert_by_created_at m acc) acc l ≡ₚ acc ++ l ∧
  (StronglySorted older acc →
   StronglySorted older (foldl (λ acc m, insert_by_created_at m acc) acc l)).
Proof.
  revert acc. induction l as [|m l IH]; intros acc; simpl.
  - by rewrite app_nil_r.
  - destruct (IH (insert_by_created_at m acc)) as [Hp Hs]. split.
    + rewrite Hp, insert_by_created_at_perm.
      by rewrite <- Permutation_middle.
    + intros Hacc. by apply Hs, insert_by_created_at_sorted.
Qed.

(** The marks of a fetch touch neither the session state nor the clock,
    and amount to marking, in the order of the history, the identities
    of the messages to mark. *)
Lemma forEach_marks_db (viewer : option Id) (data : list Message) w :
  let w' := run (forEach data (λ message,
              if bool_decide (m_read_at message = None)
                 && bool_decide (Some (m_user_id message) ≠ viewer)
              then markMessageAsRead (m_id message) else mret tt)) w in
  ui w' = ui w ∧
  db w' = foldl (λ d mid, messages_mark_read mid (clock w) d) (db w)
                (m_id <$> filter (to_mark viewer) data).
Proof.
  revert w. induction data as [|m data IH]; intros w; [done|].
  set (f := λ message : Message, _) in *.
  change (run (forEach (m :: data) f) w)
    with (run (forEach data f) (run (f m) w)).
  destruct (IH (run (f m) w)) as [Hui Hdb]. cbv zeta.
  rewrite Hui, Hdb, filter_cons.
  destruct (decide (to_mark viewer m)) as [[Hr Hu]|Hn].
  - assert (f m = markMessageAsRead (m_id m)) as ->
      by (unfold f; by rewrite !bool_decide_true).
    done.
  - assert (f m = mret tt) as ->; [|done].
    unfold f.
    destruct (decide (m_read_at m = None)) as [Hr|Hr].
    + rewrite (bool_decide_false (Some (m_user_id m) ≠ viewer)).
      * by rewrite andb_false_r.
      * intros Hu. apply Hn. by split.
    + by rewrite (bool_decide_false (m_read_at m = None)).
Qed.

(** The marks a session sends change no row. *)
Lemma forEach_marks_loop (viewer : option Id) (data : list Message) w :
  loop (run (forEach data (λ message,
          if bool_decide (m_read_at message = None)
             && bool_decide (Some (m_user_id message) ≠ viewer)
          then markMessageAsRead (m_id message) else mret tt)) w)
  = loop w.
Proof.
  revert w. induction data as [|m data IH]; intros w; [done|].
  set (f := λ message : Message, _) in *.
  change (run (forEach (m :: data) f) w)
    with (run (forEach data f) (run (f m) w)).
  rewrite IH. unfold f. by destruct (_ && _).
Qed.

Lemma marks_denied (ids : list Id) (t : Time) (d : Tables) :
  foldl (λ d mid, messages_mark_read mid t d) d ids = d.
Proof.
  induction ids as [|mid ids IH]; [done|].
  simpl. by rewrite messages_mark_read_denied.
Qed.

Lemma fetchMessages_ui cid w :
  conversationId (ui w) = Some cid →
  messages (ui (run fetchMessages w)) = messages_select cid (db w) ∧
  db (run fetchMessages w) = db w.
Proof.
  intros Hcid. unfold fetchMessages, run, mbind, M_bind, get. simpl.
  rewrite Hcid. simpl.
  match goal with
  | |- context [forEach ?data ?f ?w0] =>
      destruct (forEach_marks_db (userId (ui w)) data w0) as [Hui Hdb]
  end.
  unfold run in Hui, Hdb. rewrite Hui, Hdb. simpl.
  by rewrite marks_denied.
Qed.

(** The list a fetch puts on screen: the rows of the conversation, each
    once, in non-decreasing order of creation time.  It is the snapshot
    taken before the marks: the marks that follow do not update it. *)
Theorem fetchMessages_history cid w :
  conversationId (ui w) = Some cid →
  let shown := messages (ui (run fetchMessages w)) in
  shown ≡ₚ filter (λ m, m_conversation_id m = cid) (chat_messages (db w)) ∧
  StronglySorted older shown.
Proof.
  intros Hcid. unfold fetchMessages, run, mbind, M_bind, get. simpl.
  rewrite Hcid. simpl.
  match goal with
  | |- context [forEach ?data ?f ?w0] =>
      destruct (forEach_marks_db (userId (ui w)) data w0) as [Hui _]
  end.
  unfold run in Hui. rewrite Hui. simpl.
  unfold messages_select, order_by_created_at.
  destruct (order_by_created_at_acc
              (filter (λ m, m_conversation_id m = cid) (chat_messages (db w)))
              []) as [Hp Hs].
  split; [exact Hp|]. apply Hs. constructor.
Qed.

(** The read receipts of a fetch.  The session sends one mark-read
    request for each message on screen that is unread and was sent by
    somebody else, in the order shown, and for no other message; the
    store changes none of them, [chat_messages] having no policy for
    UPDATE: after the fetch every row is as it was before, unread
    included. *)
Theorem fetchMessages_marks_are_discarded cid w :
  conversationId (ui w) = Some cid →
  let w' := run fetchMessages w in
  trace w' = trace w ++ chat_messages_select (Some cid)
    :: ((λ m, chat_messages_update (m_id m) (clock w))
          <$> filter (to_mark (userId (ui w))) (messages (ui w'))) ∧
  db w' = db w.
Proof.
  intros Hcid. cbv zeta.
  destruct (fetchMessages_ui cid w Hcid) as [-> ->].
  split; [|done]. by apply fetchMessages_marks.
Qed.

End History.

Lemma fetchMessages_history_witness :
  let own := mkMessage 1 1 7 (lit "Hello") false 30 None None None false in
  let reply := mkMessage 2 1 2 (lit "Hi, how can we help?") true 10
                         None None None false in
  let other := mkMessage 3 5 2 (lit "Your loan") true 20 None None None false in
  let d := mkTables (Some 7) [] [mkConversation 1 7 "active" 0 0;
                                 mkConversation 5 8 "active" 0 0]
                    [own; reply; other] [] [] in
  let w := mkSys (mkState false [] [] false (Some 1) (Some 7) None [] None 0
                          None) d 100 [] idle in
  messages (ui (run fetchMessages w)) ≡ₚ [own; reply] ∧
  StronglySorted older (messages (ui (run fetchMessages w))).
Proof.
  intros own reply other d w.
  destruct (fetchMessages_history 1 w) as [Hp Hs]; [done|].
  split; [exact Hp | exact Hs].
Defined.

Lemma fetchMessages_marks_are_discarded_witness :
  let own := mkMessage 1 1 7 (lit "Hello") false 30 None None None false in
  let reply := mkMessage 2 1 2 (lit "Hi, how can we help?") true 10
                         None None None false in
  let other := mkMessage 3 5 2 (lit "Your loan") true 20 None None None false in
  let d := mkTables (Some 7) [] [mkConversation 1 7 "active" 0 0;
                                 mkConversation 5 8 "active" 0 0]
                    [own; reply; other] [] [] in
  let w := mkSys (mkState false [] [] false (Some 1) (Some 7) None [] None 0
                          None) d 100 [] idle in
  trace (run fetchMessages w)
    = [chat_messages_select (Some 1); chat_messages_update 2 100] ∧
  chat_messages (db (run fetchMessages w)) = [own; reply; other].
Proof.
  intros own reply other d w.
  destruct (fetchMessages_marks_are_discarded 1 w) as [Htr Hdb]; [done|].
  split; [exact Htr | by rewrite Hdb].
Defined.

(** ** Triggers and the sweep of the typing table *)

Section TypingMaintenance.

Implicit Types (rows : list TypingStatus) (cid uid : Id) (t now : Time).

Lemma cleanup_keeps_fresh now rows :
  filter (λ r, ¬ stale now r) (cleanup_typing_status now rows)
  = filter (λ r, ¬ stale now r) rows.
Proof.
  unfold cleanup_typing_status.
  induction rows as [|r rows IH]; [done|].
  rewrite fmap_cons, !filter_cons.
  destruct (decide (stale now r)) as [Hstale|Hfresh].
  - rewrite !decide_False by (unfold stale in *; simpl; tauto). exact IH.
  - rewrite !decide_True by done. by rewrite IH.
Qed.

(** The sweep clears exactly the flags that were last written more than
    ten seconds ago: afterwards no stale row is flagged, the rows written
    within the window are as they were, and nothing but the flag changes
    (identifiers, pairs and write times are kept, so the constraints of
    the table still hold).  Sweeping twice at the same time is sweeping
    once. *)
Theorem cleanup_typing_status_sweeps now rows :
  let swept := cleanup_typing_status now rows in
  Forall (λ r, t_is_typing r = true → t_last_updated r + 10 * 1000 ≥ now) swept ∧
  filter (λ r, ¬ stale now r) swept = filter (λ r, ¬ stale now r) rows ∧
  t_id <$> swept = t_id <$> rows ∧
  typing_key <$> swept = typing_key <$> rows ∧
  t_last_updated <$> swept = t_last_updated <$> rows ∧
  (typing_constraints rows → typing_constraints swept) ∧
  cleanup_typing_status now swept = swept.
Proof.
  unfold cleanup_typing_status.
  set (f := λ r, if decide (stale now r) then clear_flag r else r).
  assert (Hid : ∀ r, t_id (f r) = t_id r)
    by (intros r; unfold f; by case_decide).
  assert (Hkey : ∀ r, typing_key (f r) = typing_key r)
    by (intros r; unfold f; by case_decide).
  assert (Hlast : ∀ r, t_last_updated (f r) = t_last_updated r)
    by (intros r; unfold f; by case_decide).
  assert (Hids : t_id <$> (f <$> rows) = t_id <$> rows)
    by (rewrite <- list_fmap_compose; apply list_fmap_ext;
        intros i r _; apply Hid).
  assert (Hkeys : typing_key <$> (f <$> rows) = typing_key <$> rows)
    by (rewrite <- list_fmap_compose; apply list_fmap_ext;
        intros i r _; apply Hkey).
  cbv zeta. split; [|split; [|split; [|split; [|split; [|split]]]]].
  - apply Forall_fmap, Forall_forall. intros r _. unfold f. simpl.
    case_decide as Hs; [done|]. unfold stale in Hs. lia.
  - apply cleanup_keeps_fresh.
  - exact Hids.
  - exact Hkeys.
  - rewrite <- list_fmap_compose. apply list_fmap_ext.
    intros i r _. apply Hlast.
  - intros [H1 H2]. split; [by rewrite Hids | by rewrite Hkeys].
  - rewrite <- list_fmap_compose. apply list_fmap_ext. intros i r _.
    unfold compose, f, stale. repeat case_decide; simpl in *; done || lia.
Qed.

(** A flag that a client set and then abandoned does not stay: once the
    row is more than ten seconds old the sweep reads it false, whether
    the client is still there or not. *)
Theorem abandoned_flag_is_swept cid uid t now rows :
  typing_constraints rows →
  typing_rows_of cid uid rows = [] →
  t + 10 * 1000 < now →
  t_is_typing <$> typing_rows_of cid uid
    (cleanup_typing_status now
       (fst (typing_insert_on_conflict OnPrimaryKey cid uid true t rows)))
  = [false].
Proof.
  intros Hc Hnone Hlate. rewrite typing_upsert_new_pair by done.
  unfold cleanup_typing_status, typing_rows_of in *.
  set (f := λ r, if decide (stale now r) then clear_flag r else r).
  assert (Hkey : ∀ r, typing_key (f r) = typing_key r)
    by (intros r; unfold f; by case_decide).
  rewrite fmap_app, filter_app, fmap_cons, fmap_nil.
  rewrite (filter_none _ (f <$> rows)); cycle 1.
  { intros r Hr Hk. apply list_elem_of_fmap in Hr as (r0 & -> & Hr0).
    rewrite Hkey in Hk.
    eapply (filter_nil_not_elem_of _ _ r0 Hnone); done. }
  rewrite app_nil_l, filter_cons, decide_True by (by rewrite Hkey).
  rewrite filter_nil. unfold f. by rewrite decide_True.
Qed.

(** [chat_conversations] has no policy for UPDATE: the trigger that is
    to stamp [updated_at] changes no row. *)
Lemma update_conversation_denied (new : Message) now (d : Tables) :
  update_conversation_updated_at new now d = d.
Proof.
  unfold update_conversation_updated_at.
  assert (Hsame : ∀ l : list Conversation,
    (λ c, if decide (c_id c = m_conversation_id new
                     ∧ has_policy Chat_conversations UPDATE = true)
          then mkConversation (c_id c) (c_user_id c) (c_status c)
                              (c_created_at c) now
          else c) <$> l = l).
  { induction l as [|c l IH]; [done|]. rewrite fmap_cons, IH.
    rewrite decide_False; [done|]. by intros [_ ?]. }
  rewrite Hsame. by destruct d.
Qed.


End TypingMaintenance.

Lemma upserts_on_pair_latest_witness :
  t_is_typing <$> typing_rows_of 1 7
    (upserts OnConversationUser 1 7 ([(true, 100); (true, 400)] ++ [(false, 900)])
             [mkTypingStatus 4 1 9 true 50])
  = [false].
Proof.
  apply (upserts_on_pair_latest 1 7 [(true, 100); (true, 400)] false 900).
  split; apply NoDup_singleton.
Defined.

Lemma abandoned_flag_is_swept_witness :
  t_is_typing <$> typing_rows_of 1 7
    (cleanup_typing_status (10 * 1000 + 301)
       (fst (typing_insert_on_conflict OnPrimaryKey 1 7 true 300 [])))
  = [false].
Proof.
  apply (abandoned_flag_is_swept 1 7 300 (10 * 1000 + 301) []); [|done|lia].
  split; apply NoDup_nil_2.
Defined.


(** ** Submitting the profile form *)

Section ProfileSubmit.

Import ProfileForm.

Implicit Types (p : UserProfile) (today : Date) (env : Env) (s : State).

Lemma too_short_false (text : option jsstring) (n : nat) :
  too_short text n = false ↔ text_ok text n.
Proof.
  unfold text_ok. destruct text as [v|]; simpl.
  - rewrite orb_false_iff, negb_false_iff, bool_decide_eq_false. split.
    + intros [Ht Hlen]. exists v. split; [done|]. split; [|lia].
      intros Hnil. by rewrite Hnil in Ht.
    + intros (v' & [= <-] & Ht & Hlen). split; [|lia].
      by destruct (trim v).
  - split; [done|]. by intros (v & ? & _).
Qed.

Lemma income_accepted (x : number) :
  falsy_number x || le_zero x = false ↔ income_ok x.
Proof.
  unfold income_ok. destruct x as [| | |q]; simpl.
  - split; [done|]. by intros [?|(q & ? & _)].
  - split; [done|]. by intros [?|(q & ? & _)].
  - split; [by left | done].
  - rewrite orb_false_iff. split.
    + intros [_ Hle]. right. exists q. split; [done|].
      apply Qnot_le_lt. intros H. apply Qle_bool_iff in H. congruence.
    + intros [?|(q' & [= <-] & Hpos)]; [done|].
      assert (Hle : Qle_bool q 0 = false).
      { destruct (Qle_bool q 0) eqn:E; [|done].
        apply Qle_bool_iff in E. by apply Qle_not_lt in E. }
      split; [|done].
      destruct (Qeq_bool q 0) eqn:E; [|done].
      apply Qeq_bool_iff in E. rewrite E in Hpos.
      by apply Qlt_irrefl in Hpos.
Qed.


(** The profile store is written to only by a submission that passes
    validation, made on line by a signed-in user; such a submission
    sends exactly one upsert, and no other submission sends any. *)
Theorem upsert_sent_iff env s :
  existsb is_upsert (handleSubmit env s).2 = true
  ↔ validateProfile env (profile s) = true ∧
    onLine env = true ∧
    is_Some (user env).
Proof.
  split.
  - unfold handleSubmit. cbv zeta.
    destruct (validateProfile env (profile s)); [|done]. simpl.
    destruct (onLine env); [|done]. simpl.
    destruct (user env) as [uid|]; [|done]. by intros _.
  - intros (Hv & Ho & [uid Hu]).
    by apply (handleSubmit_valid_upserts env s uid).
Qed.

(** A submission that passes validation always ends with the form no
    longer loading; its success flag is set exactly when the store
    accepted the upsert; and the edited profile is replaced only then,
    by the row read back (kept when nothing is read back). *)
Theorem handleSubmit_outcome env s :
  validateProfile env (profile s) = true →
  let s' := (handleSubmit env s).1 in
  loading s' = false ∧
  (success s' = true
   ↔ onLine env = true ∧ is_Some (user env) ∧ upsert_error env = None) ∧
  (profile s' ≠ profile s → success s' = true ∧
                            select_data env = Some (profile s')).
Proof.
  intros Hv. unfold handleSubmit. cbv zeta. rewrite Hv. simpl.
  destruct (onLine env) eqn:Ho; simpl;
    [|split; [done|]; split; [split; [done | by intros (? & _)] | done]].
  destruct (user env) as [uid|] eqn:Hu; simpl;
    [|split; [done|]; split;
      [split; [done | by intros (_ & [? ?] & _)] | done]].
  destruct (upsert_error env) as [error|] eqn:He.
  - repeat case_bool_decide; simpl;
      (split; [done|]; split; [split; [done | by intros (_ & _ & ?)] | done]).
  - unfold fetchProfile. rewrite Ho, Hu. simpl.
    destruct (select_error env) as [e|]; [case_bool_decide|]; simpl;
      try (split; [done|]; split; [by split|done]).
    destruct (select_data env) as [data|]; simpl;
      (split; [done|]; split; [by split|done]).
Qed.

End ProfileSubmit.

Lemma handleSubmit_outcome_witness :
  let p := mkProfile 7 (Some (lit "Amina Otieno")) (Some (lit "12 Moi Avenue"))
                     (Some (lit "+254700111222"))
                     (ValidDate (mkDate 1990 5 17))
                     (lit "employed") (Finite (85000 # 1)) false in
  let s := ProfileForm.mkState false false
             (ProfileForm.mkErrors None None None None None) p in
  let env := ProfileForm.mkEnv true (Some 7) (mkDate 2026 11 2) (λ _, (-180)%Z)
               1000 (Some (ProfileForm.mkStoreError "23514" false "check"))
               None None in
  ProfileForm.loading (ProfileForm.handleSubmit env s).1 = false ∧
  ProfileForm.success (ProfileForm.handleSubmit env s).1 ≠ true.
Proof.
  intros p s env.
  destruct (handleSubmit_outcome env s) as (Hl & Hs & _); [by vm_compute|].
  split; [exact Hl|]. intros Hsucc. apply Hs in Hsucc as (_ & _ & ?). done.
Defined.

(** ** Signing in *)

(** *** The index drawn for a CAPTCHA character *)

Section Doubles.

Local Open Scope Z_scope.

Lemma pow2_neg (e : Z) :
  e < 0 → pow2 e = (/ inject_Z (2 ^ (- e)))%Q.
Proof. intros He. unfold pow2. by rewrite (proj2 (Z.leb_gt 0 e)). Qed.

Lemma pow2_nonneg (e : Z) :
  0 ≤ e → pow2 e = inject_Z (2 ^ e).
Proof. intros He. unfold pow2. by rewrite (proj2 (Z.leb_le 0 e)). Qed.

Lemma inject_Z_pow_pos (j : Z) : 0 ≤ j → (0 < inject_Z (2 ^ j))%Q.
Proof.
  intros Hj. change 0%Q with (inject_Z 0). rewrite <- Zlt_Qlt.
  by apply Z.pow_pos_nonneg.
Qed.

(** A double below 1 is at most the largest of them, [1 - 2^-53]. *)
Lemma double_below_one (r : Q) :
  is_double r → (r < 1)%Q → (r <= 1 - (1 # 2 ^ 53))%Q.
Proof.
  intros (m & e & Hm & [He _] & Hr) Hlt. rewrite Hr in *. clear Hr r.
  destruct (Z.le_gt_cases 0 e) as [Hpos|Hneg].
  - rewrite pow2_nonneg in * by done.
    rewrite <- inject_Z_mult in *.
    assert (m * 2 ^ e < 1) by (rewrite Zlt_Qlt; exact Hlt).
    assert (H0 : (inject_Z (m * 2 ^ e) <= inject_Z 0)%Q)
      by (rewrite <- Zle_Qle; lia).
    eapply Qle_trans; [exact H0|]. done.
  - rewrite pow2_neg in * by done.
    set (P := 2 ^ (- e)) in *.
    assert (HP : 0 < P) by (apply Z.pow_pos_nonneg; lia).
    assert (HPq : (0 < inject_Z P)%Q)
      by (change 0%Q with (inject_Z 0); by rewrite <- Zlt_Qlt).
    assert (HmP : m < P).
    { rewrite Zlt_Qlt. apply (Qmult_lt_r _ _ (/ inject_Z P)).
      - by apply Qinv_lt_0_compat.
      - rewrite Qmult_inv_r by (intros H; rewrite H in HPq; by apply Qlt_irrefl in HPq).
        done. }
    apply (Qmult_le_r _ _ (inject_Z P)); [done|].
    rewrite <- Qmult_assoc, (Qmult_comm (/ inject_Z P)).
    rewrite Qmult_inv_r by (intros H; rewrite H in HPq; by apply Qlt_irrefl in HPq).
    rewrite Qmult_1_r.
    destruct (Z.le_gt_cases (- e) 53) as [Hsmall|Hbig].
    + assert (HP53 : P ≤ 2 ^ 53) by (apply Z.pow_le_mono_r; lia).
      assert (Hq : (inject_Z m <= inject_Z P - 1)%Q).
      { assert (H1 : (inject_Z m <= inject_Z (P + -1))%Q)
          by (rewrite <- Zle_Qle; lia).
        rewrite inject_Z_plus in H1. exact H1. }
      assert (HPq53 : (inject_Z P <= inject_Z (2 ^ 53))%Q)
        by (by rewrite <- Zle_Qle).
      change (inject_Z (2 ^ 53)) with (9007199254740992 # 1)%Q in HPq53.
      change (1 # 2 ^ 53)%Q with (1 # 9007199254740992)%Q.
      lra.
    + assert (HP54 : 2 ^ 54 ≤ P) by (apply Z.pow_le_mono_r; lia).
      assert (Hq : (inject_Z m <= inject_Z (2 ^ 53))%Q)
        by (rewrite <- Zle_Qle; lia).
      assert (HPq54 : (inject_Z (2 ^ 54) <= inject_Z P)%Q)
        by (by rewrite <- Zle_Qle).
      change (inject_Z (2 ^ 53)) with (9007199254740992 # 1)%Q in Hq.
      change (inject_Z (2 ^ 54)) with (18014398509481984 # 1)%Q in HPq54.
      change (1 # 2 ^ 53)%Q with (1 # 9007199254740992)%Q.
      lra.
Qed.


(** The exponent found for a positive value below [2^6] is at most 5. *)
Lemma floor_log2_below (x : Q) :
  (0 < x)%Q → (x < inject_Z 64)%Q → floor_log2 x ≤ 5.
Proof.
  destruct x as [n d]. intros Hpos Hlt.
  assert (Hn : 0 < n) by (unfold Qlt in Hpos; simpl in Hpos; lia).
  assert (Hnd : n < 64 * Z.pos d) by (unfold Qlt in Hlt; simpl in Hlt; lia).
  unfold floor_log2. simpl Qnum. simpl Qden.
  set (k := Z.log2 n - Z.log2 (Z.pos d)).
  destruct (Qle_bool (pow2 k) (n # d)) eqn:Hk.
  - apply Qle_bool_iff in Hk.
    destruct (Z.le_gt_cases k 5) as [|Hbig]; [done|]. exfalso.
    rewrite pow2_nonneg in Hk by lia.
    assert (H64 : 2 ^ 6 ≤ 2 ^ k) by (apply Z.pow_le_mono_r; lia).
    assert (Hq : (inject_Z (2 ^ 6) <= inject_Z (2 ^ k))%Q)
      by (by rewrite <- Zle_Qle).
    change (inject_Z (2 ^ 6)) with (inject_Z 64) in Hq.
    apply (Qlt_irrefl (inject_Z 64)).
    eapply Qle_lt_trans; [exact Hq|]. eapply Qle_lt_trans; [exact Hk|]. done.
  - destruct (Z.le_gt_cases k 6) as [|Hbig]; [lia|]. exfalso.
    destruct (Z.log2_spec n Hn) as [Hn1 _].
    destruct (Z.log2_spec (Z.pos d)) as [_ Hd2]; [lia|].
    assert (Hlog : Z.log2 (Z.pos d) + 7 ≤ Z.log2 n) by (unfold k in Hbig; lia).
    assert (H0 : 0 ≤ Z.log2 (Z.pos d)) by apply Z.log2_nonneg.
    assert (Hpow : 2 ^ (Z.log2 (Z.pos d) + 7) ≤ 2 ^ Z.log2 n)
      by (apply Z.pow_le_mono_r; lia).
    rewrite Z.pow_add_r in Hpow by lia.
    rewrite Z.pow_succ_r in Hd2 by lia.
    change (2 ^ 7) with 128 in Hpow.
    lia.
Qed.

(** Rounding to the nearest integer, ties to even. *)
Lemma round_half_even_nonneg (y : Q) :
  (0 <= y)%Q → 0 ≤ round_half_even y.
Proof.
  intros Hy. unfold round_half_even.
  assert (Hf : 0 ≤ Qfloor y).
  { change 0 with (Qfloor 0). by apply Qfloor_resp_le. }
  destruct (_ ?= _)%Q; [destruct (Z.even _)| |]; lia.
Qed.

Lemma round_half_even_below (y : Q) (N : Z) :
  (y < inject_Z N - (1 # 2))%Q → round_half_even y < N.
Proof.
  intros Hy. unfold round_half_even.
  pose proof (Qfloor_le y) as Hlo.
  assert (Hup : round_half_even y ≤ Qfloor y + 1).
  { unfold round_half_even.
    destruct (_ ?= _)%Q; [destruct (Z.even _)| |]; lia. }
  destruct (y - inject_Z (Qfloor y) ?= 1 # 2)%Q eqn:Hc.
  - apply Qeq_alt in Hc.
    assert (Hlt : (inject_Z (Qfloor y + 1) < inject_Z N)%Q)
      by (rewrite inject_Z_plus; change (inject_Z 1) with 1%Q; lra).
    rewrite <- Zlt_Qlt in Hlt. destruct (Z.even _); lia.
  - assert (Hlt : (inject_Z (Qfloor y) < inject_Z N)%Q) by lra.
    by rewrite <- Zlt_Qlt in Hlt.
  - apply Qgt_alt in Hc.
    assert (Hlt : (inject_Z (Qfloor y + 1) < inject_Z N)%Q)
      by (rewrite inject_Z_plus; change (inject_Z 1) with 1%Q; lra).
    rewrite <- Zlt_Qlt in Hlt. lia.
Qed.

(** The product of a double below 1 and 56 rounds to a double below
    56. *)
Lemma binary64_pos_below (x : Q) :
  (0 < x)%Q → (x <= 56 - (7 # 2 ^ 50))%Q →
  (0 <= binary64_pos x)%Q ∧ (binary64_pos x < 56)%Q.
Proof.
  intros Hpos Hle. unfold binary64_pos.
  set (e := Z.max (floor_log2 x - 52) (-1074)).
  assert (He : e ≤ -47).
  { assert (floor_log2 x ≤ 5); [|lia].
    apply floor_log2_below; [done|].
    change (inject_Z 64) with (64 # 1)%Q.
    change (7 # 2 ^ 50)%Q with (7 # 1125899906842624)%Q in Hle. lra. }
  rewrite pow2_neg by lia.
  set (S := inject_Z (2 ^ (- e))).
  assert (HS : (inject_Z (2 ^ 47) <= S)%Q).
  { unfold S. rewrite <- Zle_Qle. apply Z.pow_le_mono_r; lia. }
  change (inject_Z (2 ^ 47)) with (140737488355328 # 1)%Q in HS.
  assert (HSpos : (0 < S)%Q) by lra.
  assert (Hy : (x / / S == x * S)%Q).
  { unfold Qdiv. rewrite Qinv_involutive. reflexivity. }
  assert (HxS : (x * S <= (56 - (7 # 2 ^ 50)) * S)%Q)
    by (apply Qmult_le_compat_r; [done | lra]).
  change (7 # 2 ^ 50)%Q with (7 # 1125899906842624)%Q in HxS.
  assert (Hround : round_half_even (x / / S) < 56 * 2 ^ (- e)).
  { apply round_half_even_below. rewrite Hy, inject_Z_mult. fold S.
    change (inject_Z 56) with (56 # 1)%Q. lra. }
  assert (Hnonneg : 0 ≤ round_half_even (x / / S)).
  { apply round_half_even_nonneg. rewrite Hy.
    apply Qmult_le_0_compat; lra. }
  split.
  - apply Qmult_le_0_compat.
    + change 0%Q with (inject_Z 0). by rewrite <- Zle_Qle.
    + apply Qlt_le_weak, Qinv_lt_0_compat. done.
  - apply (Qmult_lt_r _ _ S); [done|].
    rewrite <- Qmult_assoc, (Qmult_comm (/ S)).
    rewrite Qmult_inv_r by lra. rewrite Qmult_1_r.
    assert (Hq : (inject_Z (round_half_even (x / / S))
                  < inject_Z (56 * 2 ^ (- e)))%Q) by (by rewrite <- Zlt_Qlt).
    rewrite inject_Z_mult in Hq. fold S in Hq.
    change (inject_Z 56) with (56 # 1)%Q in Hq. lra.
Qed.

(** [Math.floor(Math.random() * 56)] is an index into a string of 56
    characters. *)
Lemma floor_index (r : Q) :
  is_double r → (0 <= r)%Q → (r < 1)%Q →
  0 ≤ Qfloor (fmul r (inject_Z 56)) < 56.
Proof.
  intros Hd Hlo Hhi. apply double_below_one in Hd; [|done].
  change (1 # 2 ^ 53)%Q with (1 # 9007199254740992)%Q in Hd.
  unfold fmul, binary64.
  destruct (r * inject_Z 56 ?= 0)%Q eqn:Hc.
  - done.
  - apply Qlt_alt in Hc. change (inject_Z 56) with (56 # 1)%Q in Hc. lra.
  - apply Qgt_alt in Hc.
    destruct (binary64_pos_below (r * inject_Z 56)) as [H0 H56].
    + done.
    + change (7 # 2 ^ 50)%Q with (7 # 1125899906842624)%Q.
      change (inject_Z 56) with (56 # 1)%Q. lra.
    + split.
      * change 0 with (Qfloor 0). by apply Qfloor_resp_le.
      * rewrite Zlt_Qlt. eapply Qle_lt_trans; [apply Qfloor_le|].
        exact H56.
Qed.

End Doubles.

Section SignIn.

Import AuthForm.

Implicit Types (env : Env) (s : State).

Lemma charAt_in_range (v : jsstring) (i : Z) :
  (0 ≤ i < Z.of_nat (length v))%Z → ∃ c, charAt v i = [c] ∧ c ∈ v.
Proof.
  intros [Hlo Hhi]. unfold charAt.
  rewrite (proj2 (Z.ltb_ge i 0)) by lia.
  destruct (v !! Z.to_nat i) as [c|] eqn:E.
  - exists c. split; [done|]. by eapply list_elem_of_lookup_2.
  - apply lookup_ge_None in E. lia.
Qed.

Lemma append_chars (g : nat → jsstring) (l : list nat) (acc : jsstring) :
  (∀ i, ∃ c, g i = [c] ∧ c ∈ chars) →
  Forall (λ c, c ∈ chars) acc →
  length (foldl (λ captcha i, captcha ++ g i) acc l) = length acc + length l ∧
  Forall (λ c, c ∈ chars) (foldl (λ captcha i, captcha ++ g i) acc l).
Proof.
  intros Hg. revert acc. induction l as [|i l IH]; intros acc Hacc; simpl.
  - split; [lia | done].
  - destruct (Hg i) as (c & Hgi & Hc).
    destruct (IH (acc ++ g i)) as [Hlen Hall].
    + apply Forall_app. split; [done|]. rewrite Hgi. by constructor.
    + split; [|done]. rewrite Hlen, length_app, Hgi. simpl. lia.
Qed.

(** Whatever the random source returns (doubles in [0, 1)), the CAPTCHA
    has six characters, each taken from the alphabet, which leaves out
    the look-alikes I, O, l, o, 0 and 1. *)
Theorem generateCaptchaText_shape (random : nat → Q) :
  (∀ i, is_double (random i) ∧ (0 <= random i)%Q ∧ (random i < 1)%Q) →
  length (generateCaptchaText random) = 6 ∧
  Forall (λ c, c ∈ chars) (generateCaptchaText random) ∧
  Forall (λ c, c ∉ chars) (lit "IOlo01").
Proof.
  intros Hr. unfold generateCaptchaText.
  destruct (append_chars
    (λ i, charAt chars
            (Qfloor (fmul (random i) (inject_Z (Z.of_nat (length chars))))))
    (seq 0 6) []) as [Hlen Hall]; [|done|].
  - intros i. apply charAt_in_range.
    destruct (Hr i) as (Hd & Hlo & Hhi).
    change (Z.of_nat (length chars)) with 56%Z.
    by apply floor_index.
  - split; [exact Hlen|]. split; [exact Hall|].
    apply (bool_decide_unpack _). by vm_compute.
Qed.

End SignIn.

Section SignInSubmit.

Import AuthForm.

Implicit Types (env : Env) (s : State).

Lemma validateForm_true s :
  (validateForm s).1 = true
  ↔ 64%N ∈ email s ∧ 6 ≤ length (password s).
Proof.
  unfold validateForm.
  destruct (truthy (email s)) eqn:Hte; simpl; cycle 1.
  { split; [done|]. intros [Hin _].
    destruct (email s); [by apply elem_of_nil in Hin | done]. }
  destruct (truthy (password s)) eqn:Htp; simpl; cycle 1.
  { split; [done|]. intros [_ Hlen].
    destruct (password s); [simpl in Hlen; lia | done]. }
  unfold includes_at. case_bool_decide as Hat; simpl; cycle 1.
  { split; [done|]. by intros [? _]. }
  case_bool_decide as Hlen; simpl.
  - split; [done|]. intros [_ ?]. lia.
  - split; [|done]. intros _. split; [done | lia].
Qed.

(** An auth request leaves the form exactly when the e-mail contains an
    at sign, the password has six characters or more, the typed CAPTCHA
    equals the shown one up to letter case, and the browser is on line;
    it is then the only request, a sign-in or a sign-up as the form's
    mode says, with the e-mail and the password as typed. *)
Theorem auth_request_sent_iff env s :
  let sent := filter (λ e, is_auth_request e = true) (handleSubmit env s).2 in
  (sent ≠ [] ↔ 64%N ∈ email s ∧ 6 ≤ length (password s) ∧
               toLowerCase env (userCaptchaInput s)
                 = toLowerCase env (captchaText s) ∧
               onLine env = true) ∧
  (sent = [] ∨
   sent = [if isLogin s then signInWithPassword (email s) (password s)
           else signUp (email s) (password s)]).
Proof.
  pose proof (validateForm_true s) as Hvalid.
  unfold handleSubmit. destruct (validateForm s) as [valid toasts] eqn:Hv.
  simpl in Hvalid. destruct valid; simpl.
  - assert (Hok : 64%N ∈ email s ∧ 6 ≤ length (password s))
      by (by apply Hvalid).
    case_bool_decide as Hcap; simpl.
    + destruct (onLine env); simpl.
      * destruct (isLogin s), (auth_error env) as [[inst msg]|]; simpl;
          (split; [|by right]);
          (split; [intros _; destruct Hok; by repeat split | by intros _]).
      * split; [|by left]. split; [done|]. by intros (_ & _ & _ & ?).
    + split; [|by left]. split; [done|]. by intros (_ & _ & ? & _).
  - split; [|left].
    + split.
      * intros Hne. exfalso. apply Hne.
        unfold validateForm in Hv.
        repeat (destruct (_ : bool) in Hv; simplify_eq; try done).
      * intros (Hat & Hlen & _). by destruct Hvalid as [_ Hvalid];
          specialize (Hvalid (conj Hat Hlen)).
    + unfold validateForm in Hv.
      repeat (destruct (_ : bool) in Hv; simplify_eq; try done).
Qed.

(** A submission that fails validation changes nothing in the form, the
    CAPTCHA included.  Every other submission, whether the CAPTCHA was
    wrong, the browser off line, or the request refused or accepted,
    ends with a new CAPTCHA drawn, the CAPTCHA input emptied, and the
    e-mail and the password still in the form. *)
Theorem handleSubmit_refreshes_captcha env s :
  let s' := (handleSubmit env s).1 in
  ((validateForm s).1 = false → s' = s) ∧
  ((validateForm s).1 = true →
   captchaText s' = generateCaptchaText (random env) ∧
   userCaptchaInput s' = [] ∧
   email s' = email s ∧ password s' = password s ∧ isLogin s' = isLogin s).
Proof.
  unfold handleSubmit. destruct (validateForm s) as [valid toasts].
  simpl. destruct valid; simpl; [|by split].
  split; [done|]. intros _.
  case_bool_decide; simpl; [|done].
  destruct (onLine env); simpl; [|done].
  by destruct (auth_error env) as [[inst msg]|].
Qed.

End SignInSubmit.

Lemma generateCaptchaText_shape_witness :
  let random i := (inject_Z (Z.of_nat (i mod 8)) * pow2 (-3))%Q in
  length (AuthForm.generateCaptchaText random) = 6.
Proof.
  intros random.
  destruct (generateCaptchaText_shape random) as [Hlen _]; [|exact Hlen].
  intros i. pose proof (Nat.mod_upper_bound i 8) as Hi.
  split; [|split].
  - exists (Z.of_nat (i mod 8)), (-3)%Z.
    split; [|split; [lia | reflexivity]].
    rewrite Z.abs_eq by lia.
    apply Z.lt_trans with 8%Z; [lia | done].
  - unfold random, Qle. simpl. lia.
  - unfold random, Qlt. simpl. lia.
Defined.

(** ** Integrity of the chat tables *)

Section Integrity.

Implicit Types (d : Tables) (w : Sys) (cid uid mid : Id) (t : Time).

Lemma wf_with_typing d (rows : list TypingStatus) :
  well_formed d → typing_constraints rows → well_formed (with_typing rows d).
Proof. intros [] ?. by split. Qed.

Lemma wf_typing_upsert d cid uid (flag : bool) t :
  well_formed d → well_formed (typing_upsert cid uid flag t d).
Proof.
  intros Hd. apply wf_with_typing; [done|].
  apply typing_insert_on_conflict_constraints, Hd.
Qed.

Lemma wf_update_typing_status d (m : Message) t :
  well_formed d → well_formed (update_typing_status m t d).
Proof.
  intros Hd. apply wf_with_typing; [done|].
  apply typing_insert_on_conflict_constraints, Hd.
Qed.

Lemma wf_with_messages d (rows : list Message) :
  well_formed d →
  m_id <$> rows = m_id <$> chat_messages d →
  m_conversation_id <$> rows = m_conversation_id <$> chat_messages d →
  well_formed (with_messages rows d).
Proof.
  intros [] Hids Hconvs. split; simpl; try done.
  - by rewrite Hids.
  - assert (H1 : Forall (λ c, c ∈ c_id <$> chat_conversations d)
                        (m_conversation_id <$> rows))
      by (rewrite Hconvs; by apply Forall_fmap).
    by apply Forall_fmap in H1.
Qed.

Lemma wf_messages_mark_read d mid t :
  well_formed d → well_formed (messages_mark_read mid t d).
Proof. by rewrite messages_mark_read_denied. Qed.

Lemma wf_update_conversation d (m : Message) t :
  well_formed d → well_formed (update_conversation_updated_at m t d).
Proof. by rewrite update_conversation_denied. Qed.

Lemma wf_messages_insert d (cid : option Id) uid (body : jsstring)
    (sup : bool) (url ty : option jsstring) t :
  well_formed d →
  well_formed (messages_insert cid uid body sup url ty t d).1.
Proof.
  intros Hd. unfold messages_insert.
  destruct cid as [c|]; [|done]. case_decide as Hc; [|done]. simpl.
  apply wf_update_typing_status, wf_update_conversation.
  destruct Hd. split; simpl; try done.
  - rewrite fmap_app. apply NoDup_app. split; [done|].
    split; [|apply NoDup_singleton].
    intros i Hi Hin. apply list_elem_of_singleton in Hin. subst i.
    by apply (gen_random_uuid_fresh (m_id <$> chat_messages d)).
  - apply Forall_app. split; [done|]. by constructor.
Qed.

Lemma wf_storage_upload d (path : jsstring) (f : File) :
  well_formed d → well_formed (Db.storage_upload path f d).1.
Proof.
  intros Hd. unfold Db.storage_upload. case_decide as Hin; [done|].
  destruct Hd. split; simpl; try done.
  rewrite fmap_app. apply NoDup_app. split; [done|].
  split; [|apply NoDup_singleton].
  intros p Hp Hp'. apply list_elem_of_singleton in Hp'. by subst p.
Qed.

Lemma wf_conversations_insert d uid t :
  well_formed d →
  conversations_select_active uid d = None →
  well_formed (conversations_insert uid t d).2.
Proof.
  intros Hd Hnone. unfold conversations_insert.
  case_decide as Hs; [|done]. simpl.
  assert (Hnil : filter (is_active_of uid) (chat_conversations d) = []).
  { destruct (select_active_cases d uid (wf_active d Hd))
      as [[? _]|(c & _ & Hc)]; [done | congruence]. }
  destruct Hd. split; simpl; try done.
  - intros uid'. simpl.
    pose proof (filter_active_after_create d uid uid' t) as Hfilter.
    unfold created in Hfilter. rewrite Hfilter, length_app.
    destruct (decide (uid' = uid)) as [->|_]; simpl.
    + rewrite Hnil. simpl. lia.
    + specialize (wf_active0 uid'). lia.
  - rewrite fmap_app. apply NoDup_app. split; [done|].
    split; [|apply NoDup_singleton].
    intros i Hi Hin. apply list_elem_of_singleton in Hin. subst i.
    by apply (gen_random_uuid_fresh (c_id <$> chat_conversations d)).
  - eapply Forall_impl; [done|]. intros m Hm. simpl in *.
    rewrite fmap_app. apply elem_of_app. by left.
Qed.

End Integrity.

Section IntegrityOfSessions.

Implicit Types (d : Tables) (w : Sys) (e : Event).

Lemma wf_sendTypingStatus (cid uid : Id) (isTyping : bool) w :
  well_formed (db w) →
  well_formed (db (run (sendTypingStatus cid uid isTyping) w)).
Proof.
  intros Hw. rewrite sendTypingStatus_run. simpl. by apply wf_typing_upsert.
Qed.

Lemma wf_updateTypingStatus (isTyping : bool) w :
  well_formed (db w) → well_formed (db (run (updateTypingStatus isTyping) w)).
Proof.
  intros Hw.
  destruct (conversationId (ui w)) as [cid|] eqn:Hc;
    [destruct (userId (ui w)) as [uid|] eqn:Hu|].
  - rewrite (updateTypingStatus_known isTyping w cid uid Hc Hu).
    by apply wf_sendTypingStatus.
  - unfold run. rewrite updateTypingStatus_unknown by (by right). done.
  - unfold run. rewrite updateTypingStatus_unknown by (by left). done.
Qed.

Lemma db_resume (i : nat) w : db (run (resume i) w) = db w.
Proof.
  destruct (awaiting (loop w) !! i) as [call|] eqn:E.
  - rewrite (resume_run i call w E). by destruct (su_isTyping call).
  - unfold run. by rewrite resume_none.
Qed.

Lemma wf_run_due (fuel : nat) (until : Time) w :
  well_formed (db w) → well_formed (db (run (run_due fuel until) w)).
Proof.
  revert w. induction fuel as [|fuel IH]; intros w Hw; [done|].
  rewrite run_due_step.
  destruct (next_due (timers (loop w))) as [timeout|]; [|done].
  case_bool_decide; [|done].
  by apply IH, wf_sendTypingStatus.
Qed.

Lemma wf_marks (ids : list Id) (t : Time) d :
  well_formed d →
  well_formed (foldl (λ d mid, messages_mark_read mid t d) d ids).
Proof.
  revert d. induction ids as [|mid ids IH]; intros d Hd; [done|].
  simpl. by apply IH, wf_messages_mark_read.
Qed.

Lemma wf_fetchMessages w :
  well_formed (db w) → well_formed (db (run fetchMessages w)).
Proof.
  intros Hw. unfold fetchMessages, run, mbind, M_bind, get. simpl.
  destruct (conversationId (ui w)) as [cid|]; simpl; [|done].
  match goal with
  | |- context [forEach ?data ?f ?w0] =>
      destruct (forEach_marks_db (userId (ui w)) data w0) as [_ Hdb]
  end.
  unfold run in Hdb. rewrite Hdb. by apply wf_marks.
Qed.

Lemma wf_setupChat w :
  well_formed (db w) → well_formed (db (run setupChat w)).
Proof.
  intros Hw. unfold run, setupChat, mbind, M_bind, query, exec, get. simpl.
  destruct (session (db w)) as [uid|]; simpl; [|done].
  destruct (isAdmin (ui w)); simpl; [done|].
  destruct (conversations_select_active uid (db w)) as [conv|] eqn:Hsel;
    simpl; [done|].
  pose proof (wf_conversations_insert (db w) uid (clock w) Hw Hsel) as Hins.
  by destruct (conversations_insert uid (clock w) (db w)) as [[conv|] d'].
Qed.

Lemma wf_handleSubmit (random : jsstring)
    (getPublicUrl : jsstring → jsstring) w :
  well_formed (db w) → well_formed (db (run (handleSubmit random getPublicUrl) w)).
Proof.
  intros Hw.
  destruct (userId (ui w)) as [uid|] eqn:Hu; cycle 1.
  { unfold run, handleSubmit, mbind, M_bind, get. simpl.
    rewrite Hu. simpl. by rewrite orb_true_r. }
  destruct (selectedFile (ui w)) as [f|] eqn:Hf.
  - rewrite (handleSubmit_with_file random getPublicUrl w uid f Hu Hf).
    case_decide as Hin; [done|].
    pose proof (wf_storage_upload (db w) (upload_path uid random f) f Hw)
      as Hstored.
    unfold Db.storage_upload in Hstored. rewrite decide_False in Hstored by done.
    simpl in Hstored.
    match goal with
    | |- context [messages_insert ?a ?b ?c ?d0 ?e0 ?f0 ?g ?h] =>
        pose proof (wf_messages_insert h a b c d0 e0 f0 g Hstored) as Hins;
        destruct (messages_insert a b c d0 e0 f0 g h) as [d' [err|]]
    end; done.
  - destruct (truthy (trim (newMessage (ui w)))) eqn:Ht.
    + rewrite (handleSubmit_text_only random getPublicUrl w uid Hu Hf Ht).
      match goal with
      | |- context [messages_insert ?a ?b ?c ?d0 ?e0 ?f0 ?g ?h] =>
          pose proof (wf_messages_insert h a b c d0 e0 f0 g Hw) as Hins;
          destruct (messages_insert a b c d0 e0 f0 g h) as [d' [err|]]
      end; done.
    + unfold run, handleSubmit, mbind, M_bind, get. simpl.
      by rewrite Ht, Hf.
Qed.

Lemma wf_handle e w :
  well_formed (db w) → well_formed (db (run (handle e) w)).
Proof.
  intros Hw.
  destruct e as [| |value| |i|dt|file|random getPublicUrl|m|n]; cbn [handle].
  - by apply wf_setupChat.
  - unfold onConversationId. unfold run at 1. unfold mbind, M_bind, get.
    simpl. destruct (conversationId (ui w)) as [cid|]; [|done].
    by apply (wf_fetchMessages (mkSys _ _ _ _ _)).
  - change (run (onChange value) w)
      with (run (updateTypingStatus (bool_decide (0 < length value)))
                (run (setNewMessage value) w)).
    by apply wf_updateTypingStatus.
  - by apply wf_updateTypingStatus.
  - by rewrite db_resume.
  - rewrite elapse_run. simpl. by apply wf_run_due.
  - unfold run, handleFileSelect. destruct file as [f|]; [|done].
    by destruct (_ <? _)%N.
  - by apply wf_handleSubmit.
  - change (run (onMessageInsert m) w)
      with (run (markMessageAsRead (m_id m))
                (run (setMessages (λ current, current ++ [m])) w)).
    rewrite markMessageAsRead_db. by apply wf_messages_mark_read.
  - done.
Qed.

(** Whatever a session goes through (its effects, input changes, focus
    losses, timers falling due, files picked, submissions, notifications,
    in any number and any order), the chat tables keep their integrity:
    unique identifiers, one typing row per (conversation, participant),
    at most one active conversation per user, no message outside an
    existing conversation, no two objects under one path. *)
Theorem session_keeps_tables_well_formed (events : list Event) w :
  well_formed (db w) →
  well_formed (db (run (forEach events handle) w)).
Proof.
  revert w. induction events as [|e events IH]; intros w Hw; [done|].
  change (run (forEach (e :: events) handle) w)
    with (run (forEach events handle) (run (handle e) w)).
  by apply IH, wf_handle.
Qed.

End IntegrityOfSessions.

Lemma session_keeps_tables_well_formed_witness :
  let events := [Mounted; ConversationChanged; InputChanged (lit "Hello");
                 Submitted (lit "k3x") id; Mounted; Elapsed 5000] in
  well_formed (db (run (forEach events handle)
                       (start false (empty_tables (Some 7)) 100))).
Proof.
  intros events.
  apply (session_keeps_tables_well_formed events).
  split; simpl; try apply NoDup_nil_2; try done.
  - split; apply NoDup_nil_2.
  - intros uid. simpl. lia.
Defined.

(** ** In whose name a session acts *)

Section Identity.

Implicit Types (d : Tables) (w : Sys) (e : Event) (who : option Id).

Lemma session_messages_mark_read d (mid : Id) (t : Time) :
  session (messages_mark_read mid t d) = session d.
Proof. by rewrite messages_mark_read_denied. Qed.

Lemma session_messages_insert d (cid : option Id) (uid : Id)
    (body : jsstring) (sup : bool) (url ty : option jsstring) (t : Time) :
  session (messages_insert cid uid body sup url ty t d).1 = session d.
Proof.
  unfold messages_insert. destruct cid as [c|]; [|done]. by case_decide.
Qed.

(** A handler that leaves the timeouts and the suspended calls as they
    are. *)
Lemma acting_for_more who w w' (new : list ChatSupport.Effect) :
  acting_for who w →
  session (db w') = session (db w) →
  userId (ui w') = userId (ui w) →
  trace w' = trace w ++ new →
  Forall (acts_as who) new →
  loop w' = loop w →
  acting_for who w'.
Proof.
  intros (Hs & Hu & Ht & Htm & Haw) Hs' Hu' Ht' Hnew Hloop.
  split; [congruence|]. split; [by rewrite Hu'|].
  rewrite Ht', Hloop. split; [by apply Forall_app | done].
Qed.

Lemma Forall_kept (P : Timeout → Prop) w :
  Forall P (timers (loop w)) → Forall P (kept w).
Proof.
  intros H. unfold kept. destruct (typingTimeoutRef (ui w)); [|done].
  apply Forall_forall. intros x Hx. apply list_elem_of_filter in Hx as [_ Hx].
  by eapply Forall_forall in H.
Qed.

Lemma acting_for_sendTypingStatus who (cid uid : Id) (isTyping : bool) w :
  acting_for who w → who = Some uid →
  acting_for who (run (sendTypingStatus cid uid isTyping) w).
Proof.
  intros (Hs & Hu & Ht & Htm & Haw) Hwho. rewrite sendTypingStatus_run.
  split; [done|]. split; [done|]. simpl. split; [|split].
  - apply Forall_app. split; [done|]. by constructor.
  - by apply Forall_kept.
  - apply Forall_app. split; [done|]. by constructor.
Qed.

Lemma acting_for_updateTypingStatus who (isTyping : bool) w :
  acting_for who w → acting_for who (run (updateTypingStatus isTyping) w).
Proof.
  intros Hw.
  destruct (conversationId (ui w)) as [cid|] eqn:Hc;
    [destruct (userId (ui w)) as [uid|] eqn:Hu|].
  - rewrite (updateTypingStatus_known isTyping w cid uid Hc Hu).
    apply acting_for_sendTypingStatus; [done|].
    destruct Hw as (_ & [?|?] & _); congruence.
  - unfold run. by rewrite updateTypingStatus_unknown by (by right).
  - unfold run. by rewrite updateTypingStatus_unknown by (by left).
Qed.

Lemma acting_for_resume who (i : nat) w :
  acting_for who w → acting_for who (run (resume i) w).
Proof.
  intros (Hs & Hu & Ht & Htm & Haw).
  destruct (awaiting (loop w) !! i) as [call|] eqn:E; cycle 1.
  { unfold run. by rewrite resume_none. }
  rewrite (resume_run i call w E).
  assert (Hcall : who = Some (su_user_id call)).
  { rewrite Forall_forall in Haw. apply Haw.
    by eapply list_elem_of_lookup_2. }
  destruct (su_isTyping call); (split; [done|]); (split; [done|]); simpl;
    (split; [done|]); split; try (by apply Forall_delete); try done.
  apply Forall_app. split; [done|]. by constructor.
Qed.

Lemma acting_for_at_time who (t : Time) w :
  acting_for who w → acting_for who (at_time t w).
Proof. done. Qed.

Lemma acting_for_run_due who (fuel : nat) (until : Time) w :
  acting_for who w → acting_for who (run (run_due fuel until) w).
Proof.
  revert w. induction fuel as [|fuel IH]; intros w Hw; [done|].
  rewrite run_due_step.
  destruct (next_due (timers (loop w))) as [timeout|] eqn:E; [|done].
  case_bool_decide; [|done].
  apply next_due_least in E as [Hin _].
  destruct Hw as (Hs & Hu & Ht & Htm & Haw).
  apply IH, acting_for_sendTypingStatus.
  - split; [done|]. split; [done|]. split; [done|]. simpl. split; [|done].
    apply Forall_forall. intros x Hx.
    apply list_elem_of_filter in Hx as [_ Hx].
    by eapply Forall_forall in Htm.
  - by eapply Forall_forall in Htm.
Qed.

Lemma acting_for_fetchMessages who w :
  acting_for who w → acting_for who (run fetchMessages w).
Proof.
  intros Hw. unfold fetchMessages, run, mbind, M_bind, get. simpl.
  destruct (conversationId (ui w)) as [cid|]; simpl.
  - match goal with
    | |- context [forEach ?data ?f ?w0] =>
        destruct (forEach_marks_db (userId (ui w)) data w0) as [Hui Hdb];
        destruct (forEach_marks_trace (userId (ui w)) data w0) as [Htr _];
        pose proof (forEach_marks_loop (userId (ui w)) data w0) as Hloop
    end.
    unfold run in Hui, Hdb, Htr, Hloop.
    eapply (acting_for_more who w).
    + done.
    + rewrite Hdb. simpl. by rewrite marks_denied.
    + by rewrite Hui.
    + rewrite Htr. simpl. by rewrite <- app_assoc.
    + constructor; [done|]. apply Forall_fmap, Forall_forall. by intros m _.
    + by rewrite Hloop.
  - eapply (acting_for_more who w); [done|done|done| | |done].
    + simpl. by rewrite <- !app_assoc.
    + by repeat constructor.
Qed.

Lemma acting_for_setupChat who w :
  acting_for who w → acting_for who (run setupChat w).
Proof.
  intros (Hs & Hu & Ht & Htm & Haw). subst who.
  unfold acting_for, run, setupChat, mbind, M_bind, query, exec, get. simpl.
  destruct (session (db w)) as [uid|] eqn:Hsess; simpl.
  - destruct (isAdmin (ui w)); simpl.
    + split; [done|]. split; [by right|]. split; [|done].
      rewrite <- app_assoc. apply Forall_app. split; [done|].
      by repeat constructor.
    + destruct (conversations_select_active uid (db w)) as [conv|]; simpl.
      * split; [done|]. split; [by right|]. split; [|done].
        rewrite <- !app_assoc. apply Forall_app. split; [done|].
        by repeat constructor.
      * unfold conversations_insert. rewrite Hsess, decide_True by done.
        simpl. split; [done|]. split; [by right|]. split; [|done].
        rewrite <- !app_assoc. apply Forall_app. split; [done|].
        by repeat constructor.
  - split; [done|]. split; [done|]. split; [|done].
    apply Forall_app. split; [done|]. by repeat constructor.
Qed.

Lemma upload_in_own_folder (uid : Id) (random : jsstring) (f : File) :
  (id_text uid ++ lit "/") `prefix_of` upload_path uid random f.
Proof. unfold upload_path. rewrite app_assoc. by eexists. Qed.

Lemma acting_for_handleSubmit who (random : jsstring)
    (getPublicUrl : jsstring → jsstring) w :
  acting_for who w → acting_for who (run (handleSubmit random getPublicUrl) w).
Proof.
  intros Hw.
  destruct (userId (ui w)) as [uid|] eqn:Hu; cycle 1.
  { unfold run, handleSubmit, mbind, M_bind, get. simpl.
    rewrite Hu. simpl. by rewrite orb_true_r. }
  assert (Hwho : who = Some uid)
    by (destruct Hw as (_ & [?|?] & _); congruence).
  destruct (selectedFile (ui w)) as [f|] eqn:Hf.
  - rewrite (handleSubmit_with_file random getPublicUrl w uid f Hu Hf).
    pose proof (upload_in_own_folder uid random f) as Hfolder.
    case_decide as Hin.
    + eapply (acting_for_more who w); [done|done|done|done| |done].
      constructor; [by exists uid|]. by repeat constructor.
    + match goal with
      | |- context [messages_insert ?a ?b ?c ?d0 ?e0 ?f0 ?g ?h] =>
          pose proof (session_messages_insert h a b c d0 e0 f0 g) as Hsess;
          destruct (messages_insert a b c d0 e0 f0 g h) as [d' [err|]]
      end; simpl in *.
      * eapply (acting_for_more who w); [done|done|done|done| |done].
        constructor; [by exists uid|]. by repeat constructor.
      * eapply (acting_for_more who w); [done|done|done|done| |done].
        constructor; [by exists uid|]. by repeat constructor.
  - destruct (truthy (trim (newMessage (ui w)))) eqn:Ht.
    + rewrite (handleSubmit_text_only random getPublicUrl w uid Hu Hf Ht).
      match goal with
      | |- context [messages_insert ?a ?b ?c ?d0 ?e0 ?f0 ?g ?h] =>
          pose proof (session_messages_insert h a b c d0 e0 f0 g) as Hsess;
          destruct (messages_insert a b c d0 e0 f0 g h) as [d' [err|]]
      end; simpl in *.
      * eapply (acting_for_more who w); [done|done|done|done| |done].
        by repeat constructor.
      * eapply (acting_for_more who w); [done|done|done|done| |done].
        by repeat constructor.
    + unfold run, handleSubmit, mbind, M_bind, get. simpl.
      by rewrite Ht, Hf.
Qed.

Lemma acting_for_handle who e w :
  acting_for who w → acting_for who (run (handle e) w).
Proof.
  intros Hw.
  destruct e as [| |value| |i|dt|file|random getPublicUrl|m|n]; cbn [handle].
  - by apply acting_for_setupChat.
  - unfold onConversationId. unfold run at 1. unfold mbind, M_bind, get.
    simpl. destruct (conversationId (ui w)) as [cid|]; [|done].
    apply (acting_for_fetchMessages who (mkSys _ _ _ _ _)).
    eapply (acting_for_more who w); [done|done|done| | |done].
    + simpl. by rewrite <- app_assoc.
    + by repeat constructor.
  - change (run (onChange value) w)
      with (run (updateTypingStatus (bool_decide (0 < length value)))
                (run (setNewMessage value) w)).
    by apply acting_for_updateTypingStatus.
  - by apply acting_for_updateTypingStatus.
  - by apply acting_for_resume.
  - rewrite elapse_run. by apply acting_for_at_time, acting_for_run_due.
  - unfold run, handleFileSelect. destruct file as [f|]; [|done].
    destruct (_ <? _)%N; [|done].
    eapply (acting_for_more who w); [done|done|done|done| |done].
    by repeat constructor.
  - by apply acting_for_handleSubmit.
  - eapply (acting_for_more who w); [done| |done|done| |done].
    + apply session_messages_mark_read.
    + by repeat constructor.
  - done.
Qed.

(** A session never acts in another user's name.  From the moment the
    component is mounted, whatever happens to it, every request that
    carries a user identity (reads of the profile and of the
    conversation, the conversation create, message inserts, typing
    upserts) carries the identity of the user signed in on the platform,
    and every upload goes into that user's folder. *)
Theorem session_acts_for_signed_in_user (admin : bool) (d : Tables)
    (t : Time) (events : list Event) :
  let w := run (forEach events handle) (start admin d t) in
  Forall (acts_as (session d)) (trace w) ∧
  (userId (ui w) = None ∨ userId (ui w) = session d).
Proof.
  assert (H : ∀ w, acting_for (session d) w →
                   acting_for (session d) (run (forEach events handle) w)).
  { induction events as [|e events IH]; intros w Hw; [done|].
    change (run (forEach (e :: events) handle) w)
      with (run (forEach events handle) (run (handle e) w)).
    by apply IH, acting_for_handle. }
  destruct (H (start admin d t)) as (_ & Hu & Ht & _); [|done].
  split; [done|]. split; [by left|]. by repeat split.
Qed.

End Identity.

(** ** A pause in typing *)

Section Pause.

Implicit Types (w : Sys) (cid uid : Id) (timeout : Timeout).


End Pause.

